(** * The search-indexing pipeline of pritunl-zero (package [search])

    A shallow embedding of [search/search.go]: the ingestion entry point
    [Index], index provisioning ([putIndex], [newClient], [update]), the
    configuration watcher ([watchSearch]) and the flush worker ([worker]),
    together with the properties the design document states about them.

    The Go globals [client], [buffer] and [failedBuffer] become the fields of
    a [State] record that every operation threads; everything the package
    asks of the outside world (the elastic client library, the object-id
    generator, the clock, the logger) is answered by a [World] oracle and
    recorded, call by call, in a trace. *)

From Stdlib Require Import ZArith String Ascii List Lia.
From stdpp Require Import base option list strings pretty gmap.

#[local] Set Warnings "-clear-no-such-hyp".

Local Open Scope Z_scope.

(** ** crypto/md5

    [hashAddresses] feeds the address strings to Go's [crypto/md5]. The digest
    is the one of RFC 1321, written here over [Z] with the 32-bit wrap-around
    spelled out. *)

Module MD5.

Definition two32 : Z := 4294967296.

Definition add32 (a b : Z) : Z := (a + b) mod two32.

Definition not32 (a : Z) : Z := Z.lxor a (two32 - 1).

Definition rotl32 (x : Z) (n : Z) : Z :=
  Z.lor (Z.shiftl x n mod two32) (Z.shiftr x (32 - n)).

(** Per-round left-rotation amounts. *)
Definition shifts : list Z :=
  [ 7; 12; 17; 22; 7; 12; 17; 22; 7; 12; 17; 22; 7; 12; 17; 22;
    5; 9; 14; 20; 5; 9; 14; 20; 5; 9; 14; 20; 5; 9; 14; 20;
    4; 11; 16; 23; 4; 11; 16; 23; 4; 11; 16; 23; 4; 11; 16; 23;
    6; 10; 15; 21; 6; 10; 15; 21; 6; 10; 15; 21; 6; 10; 15; 21 ].

(** [floor (2^32 * |sin (i + 1)|)] for [i = 0 .. 63]. *)
Definition sines : list Z :=
  [ 3614090360; 3905402710; 606105819; 3250441966; 4118548399; 1200080426;
    2821735955; 4249261313; 1770035416; 2336552879; 4294925233; 2304563134;
    1804603682; 4254626195; 2792965006; 1236535329; 4129170786; 3225465664;
    643717713; 3921069994; 3593408605; 38016083; 3634488961; 3889429448;
    568446438; 3275163606; 4107603335; 1163531501; 2850285829; 4243563512;
    1735328473; 2368359562; 4294588738; 2272392833; 1839030562; 4259657740;
    2763975236; 1272893353; 4139469664; 3200236656; 681279174; 3936430074;
    3572445317; 76029189; 3654602809; 3873151461; 530742520; 3299628645;
    4096336452; 1126891415; 2878612391; 4237533241; 1700485571; 2399980690;
    4293915773; 2240044497; 1873313359; 4264355552; 2734768916; 1309151649;
    4149444226; 3174756917; 718787259; 3951481745 ].

(** Little-endian bytes of [x], [n] of them. *)
Fixpoint le_bytes (n : nat) (x : Z) : list Z :=
  match n with
  | O => []
  | S n' => (x mod 256) :: le_bytes n' (x / 256)
  end.

Fixpoint le_word (bs : list Z) : Z :=
  match bs with
  | [] => 0
  | b :: bs' => b + 256 * le_word bs'
  end.

(** Message padding: a [0x80] byte, zeros up to 56 modulo 64, then the
    bit length as a 64-bit little-endian integer. *)
Definition pad (msg : list Z) : list Z :=
  let len := Z.of_nat (length msg) in
  msg ++ [128] ++ replicate (Z.to_nat ((55 - len) mod 64)) 0
      ++ le_bytes 8 ((8 * len) mod (two32 * two32)).

Fixpoint words (n : nat) (bs : list Z) : list Z :=
  match n with
  | O => []
  | S n' => le_word (take 4 bs) :: words n' (drop 4 bs)
  end.

Definition round (M : list Z) (st : Z * Z * Z * Z) (i : nat) : Z * Z * Z * Z :=
  let '(a, b, c, d) := st in
  let iz := Z.of_nat i in
  let '(f, g) :=
    if (i <? 16)%nat then (Z.lor (Z.land b c) (Z.land (not32 b) d), iz)
    else if (i <? 32)%nat then
      (Z.lor (Z.land d b) (Z.land (not32 d) c), (5 * iz + 1) mod 16)
    else if (i <? 48)%nat then (Z.lxor (Z.lxor b c) d, (3 * iz + 5) mod 16)
    else (Z.lxor c (Z.lor b (not32 d)), (7 * iz) mod 16) in
  let f' := add32 (add32 (add32 f a) (nth i sines 0)) (nth (Z.to_nat g) M 0) in
  (d, add32 b (rotl32 f' (nth i shifts 0)), b, c).

Definition block (st : Z * Z * Z * Z) (chunk : list Z) : Z * Z * Z * Z :=
  let '(a0, b0, c0, d0) := st in
  let '(a, b, c, d) := fold_left (round (words 16 chunk)) (seq 0 64) st in
  (add32 a0 a, add32 b0 b, add32 c0 c, add32 d0 d).

Fixpoint blocks (n : nat) (st : Z * Z * Z * Z) (bs : list Z) : Z * Z * Z * Z :=
  match n with
  | O => st
  | S n' => blocks n' (block st (take 64 bs)) (drop 64 bs)
  end.

Definition digest (msg : list Z) : list Z :=
  let padded := pad msg in
  let '(a, b, c, d) :=
    blocks (length padded / 64)
           (1732584193, 4023233417, 2562383102, 271733878) padded in
  le_bytes 4 a ++ le_bytes 4 b ++ le_bytes 4 c ++ le_bytes 4 d.

Fixpoint bytes_of_string (s : string) : list Z :=
  match s with
  | EmptyString => []
  | String c s' => Z.of_nat (nat_of_ascii c) :: bytes_of_string s'
  end.

Definition sum (s : string) : list Z := digest (bytes_of_string s).

End MD5.

Local Close Scope Z_scope.

(** ** Data *)

(** Values that travel to the backend as JSON: documents handed to [Index]
    ([interface{}] in the source) and the index-creation body. A Go struct
    with [json] tags and a [map[string]interface{}] both encode to an
    object, keyed by tag or by map key. *)
#[warnings="-register-all"]
Inductive json : Type :=
| JNull
| JBool (b : bool)
| JNumber (n : Z)
| JString (s : string)
| JArray (items : list json)
| JObject (members : gmap string json).

(** [type mapping struct]. *)
Module mapping.

Record t : Type := mk {
  Field : string;
  Type_ : string;
  Store : bool;
  Index : string
}.

End mapping.

(** Go errors: those the libraries return, [errors.Wrap] and
    [errortypes.DatabaseError]. *)
Inductive error : Type :=
| LibraryError (msg : string)
| Wrap (cause : error) (msg : string)
| DatabaseError (inner : error).

(** A constructed [*elastic.Client]. [serial] stands for the pointer's
    identity: the length of the trace when the client was allocated. *)
Record Client : Type := mkClient { serial : nat; urls : list string }.

(** [*elastic.BulkIndexRequest] with the builder calls [Index] uses. *)
Module BulkIndexRequest.

Record t : Type := mk { index : string; typ : string; id : string; doc : json }.

(** [elastic.NewBulkIndexRequest()]. *)
Definition New : t := mk "" "" "" JNull.

Definition Index (name : string) (r : t) : t := mk name (typ r) (id r) (doc r).

Definition Type_ (name : string) (r : t) : t := mk (index r) name (id r) (doc r).

Definition Id (i : string) (r : t) : t := mk (index r) (typ r) i (doc r).

Definition Doc (d : json) (r : t) : t := mk (index r) (typ r) (id r) d.

End BulkIndexRequest.

(** ** The outside world *)

(** One entry per call that leaves the package, with its arguments and the
    answer it got. *)
Inductive event : Type :=
| NewClientEv (addrs : list string) (r : option error)
| IndexExistsEv (c : Client) (index : string) (r : error + bool)
| CreateIndexEv (c : Client) (index : string) (body : json) (r : option error)
| BulkEv (c : Client) (requests : list BulkIndexRequest.t) (r : option error)
| NewObjectIdEv (hex : string)
| SleepEv (seconds : nat)
| LogErrorEv (e : error) (msg : string).

(** How the world answers. The elastic calls may depend on everything that
    happened before (the trace so far) and on their arguments; [None] is Go's
    [nil] error. [bson_NewObjectId n] is the hex form of the [n]-th object
    id the process generates. *)
Record World : Type := mkWorld {
  elastic_NewClient : list event -> list string -> option error;
  IndexExists_Do : list event -> Client -> string -> error + bool;
  CreateIndex_Do : list event -> Client -> string -> json -> option error;
  Bulk_Do : list event -> Client -> list BulkIndexRequest.t -> option error;
  bson_NewObjectId : nat -> string
}.

(** The package-level variables, and the trace of the world. *)
Record State : Type := mkState {
  client : option Client;
  buffer : list BulkIndexRequest.t;
  failedBuffer : list BulkIndexRequest.t;
  trace : list event
}.

Definition set_client (c : option Client) (s : State) : State :=
  mkState c (buffer s) (failedBuffer s) (trace s).
Definition set_buffer (b : list BulkIndexRequest.t) (s : State) : State :=
  mkState (client s) b (failedBuffer s) (trace s).
Definition set_failedBuffer (b : list BulkIndexRequest.t) (s : State) : State :=
  mkState (client s) (buffer s) b (trace s).
Definition record (e : event) (s : State) : State :=
  mkState (client s) (buffer s) (failedBuffer s) (trace s ++ [e]).

(** The state at process start ([var ( ... )] in the source). *)
Definition initial : State := mkState None [] [] [].

(** ** A state monad for the package's procedures *)

Definition M (A : Type) : Type := State -> A * State.

#[global] Instance M_ret : MRet M := fun A (a : A) s => (a, s).
#[global] Instance M_bind : MBind M :=
  fun A B (f : A -> M B) (m : M A) s => let '(a, s') := m s in f a s'.

Definition get {A : Type} (f : State -> A) : M A := fun s => (f s, s).
Definition modify (f : State -> State) : M unit := fun s => (tt, f s).
Definition exec {A : Type} (m : M A) (s : State) : State := snd (m s).
Definition eval {A : Type} (m : M A) (s : State) : A := fst (m s).

(** The events a procedure adds to a trace that starts as [tr]. *)
Definition events_since (tr : list event) (s : State) : list event :=
  drop (length tr) (trace s).

Definition is_NewObjectId (e : event) : bool :=
  match e with NewObjectIdEv _ => true | _ => false end.

(** Number of object ids generated so far. *)
Definition ids_issued (tr : list event) : nat :=
  length (List.filter is_NewObjectId tr).

(** The messages of the package. *)
Definition check_failed_msg : string := "search: Failed to check elastic index".

Definition create_failed_msg : string := "search: Failed to create elastic index".

Definition client_failed_msg : string := "search: Failed to create elastic client".

Definition update_failed_msg : string := "search: Failed to update search indexes".

Definition bulk_failed_msg : string :=
  "search: Bulk insert failed, moving to failed buffer".

(** ** The procedures of [search.go] *)

Section Search.

Variable W : World.

(** *** Calls that leave the package *)

(** [elastic.NewClient(elastic.SetSniff(false), elastic.SetURL(addrs...))]:
    a fresh client, or [nil] and an error. *)
Definition elastic_NewClient_call (addrs : list string)
  : M (option Client * option error) := fun s =>
  let r := elastic_NewClient W (trace s) addrs in
  let clnt := match r with
              | None => Some (mkClient (length (trace s)) addrs)
              | Some _ => None
              end in
  ((clnt, r), record (NewClientEv addrs r) s).

(** [clnt.IndexExists(index).Do(ctx)]. *)
Definition IndexExists_call (clnt : Client) (index : string)
  : M (error + bool) := fun s =>
  let r := IndexExists_Do W (trace s) clnt index in
  (r, record (IndexExistsEv clnt index r) s).

(** [clnt.CreateIndex(index).BodyJson(data).Do(ctx)]. *)
Definition CreateIndex_call (clnt : Client) (index : string) (data : json)
  : M (option error) := fun s =>
  let r := CreateIndex_Do W (trace s) clnt index data in
  (r, record (CreateIndexEv clnt index data r) s).

(** [clnt.Bulk()], [bulk.Add(request)] and [bulk.Do(ctx)]. *)
Record BulkService : Type := mkBulk {
  bulk_client : Client;
  bulk_requests : list BulkIndexRequest.t
}.

Definition Bulk (clnt : Client) : BulkService := mkBulk clnt [].

Definition Bulk_Add (bulk : BulkService) (request : BulkIndexRequest.t)
  : BulkService :=
  mkBulk (bulk_client bulk) (bulk_requests bulk ++ [request]).

Definition Bulk_Do_call (bulk : BulkService) : M (option error) := fun s =>
  let r := Bulk_Do W (trace s) (bulk_client bulk) (bulk_requests bulk) in
  (r, record (BulkEv (bulk_client bulk) (bulk_requests bulk) r) s).

(** [bson.NewObjectId().Hex()]. *)
Definition NewObjectId_Hex : M string := fun s =>
  let hex := bson_NewObjectId W (ids_issued (trace s)) in
  (hex, record (NewObjectIdEv hex) s).

(** [time.Sleep(n * time.Second)]. *)
Definition time_Sleep (n : nat) : M unit := modify (record (SleepEv n)).

(** [logrus.WithFields(logrus.Fields{"error": err}).Error(msg)]. *)
Definition logrus_Error (err : error) (msg : string) : M unit :=
  modify (record (LogErrorEv err msg)).

(** *** [Index] *)

(** [buffer.PushBack(request)] between [lock.Lock()] and [lock.Unlock()]:
    one atomic update of [buffer]. *)
Definition PushBack (request : BulkIndexRequest.t) : M unit :=
  modify (fun s => set_buffer (buffer s ++ [request]) s).

Definition Index (index typ : string) (data : json) : M unit :=
  clnt ← get client;
  match clnt with
  | None => mret tt
  | Some _ =>
      id ← NewObjectId_Hex;
      let request :=
        BulkIndexRequest.Doc data
          (BulkIndexRequest.Id id
             (BulkIndexRequest.Type_ typ
                (BulkIndexRequest.Index index BulkIndexRequest.New))) in
      PushBack request
  end.

(** *** [putIndex] *)

(** One turn of the loop over [mappings]. *)
Definition put_property (properties : gmap string json) (m : mapping.t)
  : gmap string json :=
  if decide (mapping.Type_ m = "object") then
    <[mapping.Field m := JObject {[ "enabled" := JBool false ]}]> properties
  else
    <[mapping.Field m :=
        JObject (<["type" := JString (mapping.Type_ m)]>
                   (<["store" := JBool (mapping.Store m)]>
                      {[ "index" := JString (mapping.Index m) ]}))]>
      properties.

Definition index_properties (mappings : list mapping.t) : gmap string json :=
  fold_left put_property mappings ∅.

(** The value handed to [BodyJson]. *)
Definition index_body (typ : string) (mappings : list mapping.t) : json :=
  let properties := index_properties mappings in
  let data_Mappings : gmap string json :=
    <[typ := JObject {[ "properties" := JObject properties ]}]> ∅ in
  JObject {[ "mappings" := JObject data_Mappings ]}.

Definition putIndex (clnt : Client) (index typ : string)
    (mappings : list mapping.t) : M (option error) :=
  r ← IndexExists_call clnt index;
  match r with
  | inl err =>
      mret (Some (DatabaseError (Wrap err check_failed_msg)))
  | inr true => mret None
  | inr false =>
      err ← CreateIndex_call clnt index (index_body typ mappings);
      match err with
      | Some err =>
          mret (Some (DatabaseError (Wrap err create_failed_msg)))
      | None => mret None
      end
  end.

(** *** [newClient], [hashAddresses], [update] *)

Definition newClient (addrs : list string)
  : M (option Client * option error) :=
  if decide (length addrs = 0) then mret (None, None)
  else
    '(clnt, err) ← elastic_NewClient_call addrs;
    match err with
    | Some err =>
        mret (clnt, Some (DatabaseError (Wrap err client_failed_msg)))
    | None => mret (clnt, None)
    end.

(** [md5.New()], then [io.WriteString(hash, addr)] for each address, then
    [hash.Sum(nil)]: the digest of everything written. *)
Definition hashAddresses (addrs : list string) : list Z :=
  let hash := fold_left (fun written addr => written +:+ addr) addrs "" in
  MD5.sum hash.

(** The catalog [update] builds, one [append] after the other. Fields left
    out of a Go struct literal hold the zero value. *)
Definition request_mappings : list mapping.t :=
  let mappings := [] in
  let mappings := mappings ++ [mapping.mk "user" "keyword" false "analyzed"] in
  let mappings := mappings ++ [mapping.mk "session" "keyword" false "analyzed"] in
  let mappings := mappings ++ [mapping.mk "address" "ip" false "analyzed"] in
  let mappings := mappings ++ [mapping.mk "timestamp" "date" false "analyzed"] in
  let mappings := mappings ++ [mapping.mk "scheme" "keyword" false "analyzed"] in
  let mappings := mappings ++ [mapping.mk "host" "keyword" false "analyzed"] in
  let mappings := mappings ++ [mapping.mk "path" "keyword" false "analyzed"] in
  let mappings := mappings ++ [mapping.mk "query" "object" false ""] in
  let mappings := mappings ++ [mapping.mk "header" "object" false ""] in
  let mappings := mappings ++ [mapping.mk "body" "text" false "no"] in
  mappings.

Definition update (addrs : list string) : M (option error) :=
  '(clnt, err) ← newClient addrs;
  match err with
  | Some err => _ ← modify (set_client None); mret (Some err)
  | None =>
      match clnt with
      | None => _ ← modify (set_client None); mret None
      | Some c =>
          err ← putIndex c "zero-requests" "request" request_mappings;
          match err with
          | Some err => _ ← modify (set_client None); mret (Some err)
          | None => _ ← modify (set_client (Some c)); mret None
          end
      end
  end.

(** *** [watchSearch] *)

(** [bytes.Compare]: lexicographic order, as -1, 0 or 1. *)
Fixpoint bytes_Compare (a b : list Z) : Z :=
  match a, b with
  | [], [] => 0
  | [], _ :: _ => -1
  | _ :: _, [] => 1
  | x :: a', y :: b' =>
      if (x <? y)%Z then -1
      else if (y <? x)%Z then 1
      else bytes_Compare a' b'
  end.

(** One turn of the [for] loop. [hash] is the goroutine's local variable and
    [addrs] the value of [settings.Elastic.Addresses] read in this turn; the
    result is [hash] as the next turn finds it. *)
Definition watch_iteration (hash : list Z) (addrs : list string)
  : M (list Z) :=
  let newHash := hashAddresses addrs in
  if decide (bytes_Compare hash newHash ≠ 0%Z) then
    err ← update addrs;
    match err with
    | Some err =>
        _ ← logrus_Error err update_failed_msg;
        _ ← time_Sleep 3;
        mret hash
    | None =>
        _ ← time_Sleep 1;
        mret newHash
    end
  else
    _ ← time_Sleep 1;
    mret hash.

(** As many turns as there are readings of the setting. *)
Fixpoint watch_loop (hash : list Z) (readings : list (list string))
  : M (list Z) :=
  match readings with
  | [] => mret hash
  | addrs :: readings' =>
      hash' ← watch_iteration hash addrs;
      watch_loop hash' readings'
  end.

Definition watchSearch (readings : list (list string)) : M (list Z) :=
  watch_loop (hashAddresses []) readings.

(** *** [worker] *)

(** The critical section of [worker]: copy [buffer] front to back into
    [requests], then replace it by [list.New()]. *)
Definition drain : M (list BulkIndexRequest.t) := fun s =>
  let requests :=
    fold_left (fun requests request => requests ++ [request]) (buffer s) [] in
  (requests, set_buffer [] s).

(** [for i := 0; i < 10; i++], by the number of turns still allowed;
    [err] is the variable declared before the loop. *)
Fixpoint bulk_attempts (remaining : nat) (clnt : Client)
    (requests : list BulkIndexRequest.t) (err : option error)
  : M (option error) :=
  match remaining with
  | O => mret err
  | S remaining' =>
      let bulk := fold_left Bulk_Add requests (Bulk clnt) in
      err ← Bulk_Do_call bulk;
      match err with
      | Some err =>
          _ ← time_Sleep 1;
          bulk_attempts remaining' clnt requests (Some err)
      | None => mret None
      end
  end.

(** What a tick does with the drained [requests]. No other goroutine runs
    during a procedure of this model, so the two reads of [client]
    ([clnt := client] and [if client == nil]) see the same value. *)
Definition deliver (requests : list BulkIndexRequest.t) : M unit :=
  clnt ← get client;
  match clnt with
  | None => mret tt
  | Some clnt =>
      if decide (length requests = 0) then mret tt
      else
        err ← bulk_attempts 10 clnt requests None;
        match err with
        | Some err =>
            _ ← modify (fun s => set_failedBuffer (failedBuffer s ++ requests) s);
            logrus_Error err bulk_failed_msg
        | None => mret tt
        end
  end.

(** One turn of the [for] loop of [worker]. *)
Definition worker_tick : M unit :=
  _ ← time_Sleep 2;
  requests ← drain;
  deliver requests.

Fixpoint worker (ticks : nat) : M unit :=
  match ticks with
  | O => mret tt
  | S ticks' => _ ← worker_tick; worker ticks'
  end.

(** *** The goroutines together

    A run of the process is a sequence of whole procedure calls: request
    handlers calling [Index], turns of [worker] and turns of [watchSearch]
    (each with the address list it reads). *)
Inductive action : Type :=
| Enqueue (index typ : string) (data : json)
| Tick
| Watch (addrs : list string).

Record Process : Type := mkProcess { watcher_hash : list Z; globals : State }.

Definition step (p : Process) (a : action) : Process :=
  match a with
  | Enqueue index typ data =>
      mkProcess (watcher_hash p) (exec (Index index typ data) (globals p))
  | Tick => mkProcess (watcher_hash p) (exec worker_tick (globals p))
  | Watch addrs =>
      let '(hash, s) := watch_iteration (watcher_hash p) addrs (globals p) in
      mkProcess hash s
  end.

Definition run (schedule : list action) (p : Process) : Process :=
  fold_left step schedule p.

Definition start : Process := mkProcess (hashAddresses []) initial.

End Search.

Arguments Index W index typ data _ : simpl never.
Arguments update W addrs _ : simpl never.
Arguments putIndex W clnt index typ mappings _ : simpl never.
Arguments worker_tick W _ : simpl never.
Arguments watch_iteration W hash addrs _ : simpl never.

(** ** Reading traces *)

Definition bulk_payload (e : event) : option (list BulkIndexRequest.t) :=
  match e with BulkEv _ requests _ => Some requests | _ => None end.

(** The payloads of the bulk submissions of a trace, oldest first. *)
Definition bulk_payloads (tr : list event) : list (list BulkIndexRequest.t) :=
  omap bulk_payload tr.

Definition is_NewClient (e : event) : bool :=
  match e with NewClientEv _ _ => true | _ => false end.

Definition is_CreateIndex (e : event) : bool :=
  match e with CreateIndexEv _ _ _ _ => true | _ => false end.

Definition is_Bulk (e : event) : bool :=
  match e with BulkEv _ _ _ => true | _ => false end.

Definition count_events (p : event -> bool) (tr : list event) : nat :=
  length (List.filter p tr).

#[global] Instance Client_eq_dec : EqDecision Client.
Proof. solve_decision. Defined.

(** Index creations issued through client [c]. *)
Definition creates_for (c : Client) (e : event) : bool :=
  match e with
  | CreateIndexEv c' _ _ _ => bool_decide (c' = c)
  | _ => false
  end.

(** A failed bulk submission and the pause that follows it, once per error. *)
Definition failed_rounds (clnt : Client) (requests : list BulkIndexRequest.t)
    (errs : list error) : list event :=
  flat_map (fun e => [BulkEv clnt requests (Some e); SleepEv 1]) errs.

(** [s] with [evs] added to its trace. *)
Definition extend (evs : list event) (s : State) : State :=
  mkState (client s) (buffer s) (failedBuffer s) (trace s ++ evs).

(** The value of [err] after the retry loop: the last error seen, or what
    [err] held before the loop when there was none. *)
Definition last_error (err0 : option error) (errs : list error)
  : option error :=
  match last errs with
  | Some e => Some e
  | None => err0
  end.

(** [errortypes.DatabaseError{errors.Wrap(err, msg)}] when [err] is set. *)
Definition database_error (err : option error) (msg : string) : option error :=
  match err with
  | Some e => Some (DatabaseError (Wrap e msg))
  | None => None
  end.

(** ** What the statements below speak of *)

(** The requests that the [Enqueue] actions of a schedule ask for, oldest
    first, when [n] object ids were generated before the schedule starts. *)
Fixpoint enqueued (W : World) (n : nat) (schedule : list action)
  : list BulkIndexRequest.t :=
  match schedule with
  | [] => []
  | Enqueue index typ data :: schedule' =>
      BulkIndexRequest.mk index typ (bson_NewObjectId W n) data
        :: enqueued W (S n) schedule'
  | _ :: schedule' => enqueued W n schedule'
  end.


Definition no_Watch (a : action) : bool :=
  match a with Watch _ => false | _ => true end.

(** What holds of the index creations in the trace of a process: each was
    issued through a client constructed earlier in the trace, for the index
    "zero-requests" with the body of the built-in catalog, and no client
    issued two. *)
Definition creations_ok (tr : list event) : Prop :=
  (forall c i b r, CreateIndexEv c i b r ∈ tr ->
     serial c < length tr /\ i = "zero-requests"
     /\ b = index_body "request" request_mappings)
  /\ (forall c, count_events (creates_for c) tr <= 1).

(** What a step adds to a trace of length [n]: at most one index creation,
    through a client whose serial is [n]. *)
Definition step_creations_ok (n : nat) (evs : list event) : Prop :=
  count_events is_CreateIndex evs <= 1
  /\ (forall c i b r, CreateIndexEv c i b r ∈ evs ->
        serial c = n /\ i = "zero-requests"
        /\ b = index_body "request" request_mappings).

(** The address strings one after the other, nothing in between. *)
Definition concat_addresses (addrs : list string) : string :=
  foldr String.append "" addrs.

(** The two shapes a field takes in the index-creation body. *)
Definition disabled_field : json := JObject {[ "enabled" := JBool false ]}.

Definition typed_field (type : string) (store : bool) (index : string) : json :=
  JObject (list_to_map [ ("type", JString type); ("store", JBool store);
                         ("index", JString index) ]).

(** The last clause of C6 as the design document words it: over [n] turns
    of the watcher that all read the same address list, counted from process
    start, at most one client is constructed and at most one index creation
    is issued. *)
Definition at_most_one_construction (W : World) (addrs : list string)
    (n : nat) : Prop :=
  let s := exec (watchSearch W (replicate n addrs)) initial in
  count_events is_NewClient (trace s) <= 1
  /\ count_events is_CreateIndex (trace s) <= 1.

(** ** Worlds and states to run the model in *)

(** A world that gives the same answer to every call of a kind, and numbers
    the object ids in decimal. *)
Definition steady (new : option error) (found : error + bool)
    (create bulk : option error) : World :=
  mkWorld (fun _ _ => new) (fun _ _ _ => found) (fun _ _ _ _ => create)
          (fun _ _ _ => bulk) pretty.

Definition unreachable : error := LibraryError "no Elasticsearch node available".

(** All calls succeed, no index exists yet. *)
Definition calm : World := steady None (inr false) None None.

(** All calls succeed and the index is already there. *)
Definition provisioned : World := steady None (inr true) None None.

(** Bulk submissions always fail. *)
Definition bulk_down : World := steady None (inr false) None (Some unreachable).

(** The index can never be created. *)
Definition create_down : World := steady None (inr false) (Some unreachable) None.

(** The first [k] bulk submissions of the process fail, all later ones
    succeed. *)
Definition flaky (k : nat) : World :=
  mkWorld (fun _ _ => None) (fun _ _ _ => inr false) (fun _ _ _ _ => None)
          (fun tr _ _ =>
             if decide (count_events is_Bulk tr < k) then Some unreachable
             else None)
          pretty.

Definition backend_1 : Client := mkClient 0 ["backend-1"].

Definition user_a : json := JObject {[ "user" := JString "a" ]}.

Definition pending_request : BulkIndexRequest.t :=
  BulkIndexRequest.mk "zero-requests" "request" "0" user_a.

Definition three_requests : list BulkIndexRequest.t :=
  [ BulkIndexRequest.mk "zero-requests" "request" "0" user_a;
    BulkIndexRequest.mk "zero-requests" "request" "1" user_a;
    BulkIndexRequest.mk "zero-requests" "request" "2" user_a ].

(** Indexing disabled with one record still buffered. *)
Definition disabled_pending : State := mkState None [pending_request] [] [].

(** Indexing enabled, nothing buffered. *)
Definition enabled_idle : State := mkState (Some backend_1) [] [] [].

(** Indexing enabled with three buffered records. *)
Definition enabled_three : State :=
  mkState (Some backend_1) three_requests [] [].

(** Indexing enabled with one record buffered and one dead-lettered. *)
Definition enabled_busy : State :=
  mkState (Some backend_1) [pending_request] [pending_request] [SleepEv 1].

(** Scenario A of the design document: five identical records. *)
Definition five_enqueues : list action :=
  replicate 5 (Enqueue "zero-requests" "request" user_a).

(** A process in which reconfiguration to ["backend-1"] has succeeded and
    nothing is buffered. *)
Definition serving : Process :=
  mkProcess (hashAddresses ["backend-1"]) enabled_idle.

(** ** Further notions for the properties of whole runs *)

(** The payloads of the bulk submissions that the backend accepted. *)
Definition delivered_payload (e : event) : option (list BulkIndexRequest.t) :=
  match e with BulkEv _ requests None => Some requests | _ => None end.

Definition delivered (tr : list event) : list BulkIndexRequest.t :=
  concat (omap delivered_payload tr).

(** Seconds the process spent in [time.Sleep] over a trace. *)
Definition seconds_slept (tr : list event) : nat :=
  foldr (fun e total => match e with SleepEv n => n + total | _ => total end)
        0 tr.

(** Client [c] was handed out by the construction recorded at position
    [serial c] of the trace, and the existence check that follows it found
    the index "zero-requests", or did not and the creation succeeded. *)
Definition provisioned_in (tr : list event) (c : Client) : Prop :=
  tr !! serial c = Some (NewClientEv (urls c) None)
  /\ (tr !! S (serial c) = Some (IndexExistsEv c "zero-requests" (inr true))
      \/ (tr !! S (serial c)
          = Some (IndexExistsEv c "zero-requests" (inr false))
          /\ tr !! S (S (serial c))
             = Some (CreateIndexEv c "zero-requests"
                       (index_body "request" request_mappings) None))).

(** How [putIndex] writes one field of the catalog. *)
Definition field_json (m : mapping.t) : json :=
  if decide (mapping.Type_ m = "object") then disabled_field
  else typed_field (mapping.Type_ m) (mapping.Store m) (mapping.Index m).

Definition is_Watch (a : action) : bool :=
  match a with Watch _ => true | _ => false end.

(** The requests the process holds: dead-lettered ones, then buffered ones. *)
Definition held (p : Process) : list BulkIndexRequest.t :=
  failedBuffer (globals p) ++ buffer (globals p).

(** What holds of the client and of the bulk submissions of a process: a
    present client has a non-empty address list, was provisioned, and the
    watcher holds the fingerprint of its addresses; every bulk submission
    went, with at least one request, to a provisioned client. *)
Definition client_ok (p : Process) : Prop :=
  forall c, client (globals p) = Some c ->
    urls c <> [] /\ provisioned_in (trace (globals p)) c
    /\ watcher_hash p = hashAddresses (urls c).

Definition bulk_ok (tr : list event) : Prop :=
  forall c reqs r, BulkEv c reqs r ∈ tr ->
    reqs <> [] /\ provisioned_in tr c.

Definition is_failed_Bulk (e : event) : bool :=
  match e with BulkEv _ _ (Some _) => true | _ => false end.

(** * The endpoints pager

    [EndpointsPage.render], the script that follows the Go source in
    [search/search.go]: what the component shows for the page number and the
    number of pages of its state. Page numbers are integers. *)

Module EndpointsPage.

(** A page link: its React key, the number it shows, whether it is styled
    as the current page, and the page [EndpointActions.traverse] is called
    with when it is clicked. *)
Record link : Type := mkLink {
  key : Z;
  label : Z;
  current : bool;
  goes_to : Z
}.

(** One of the four arrow buttons. *)
Record button : Type := mkButton {
  hidden : bool;
  disabled : bool;
  target : Z
}.

Record pager : Type := mkPager {
  first : button;
  previous : button;
  links : list link;
  next : button;
  last : button
}.

(** [for (let i = start; i < end; i++) links.push(...)], by the number of
    turns still to make. *)
Fixpoint push_links (page : Z) (turns : nat) (i : Z) (links : list link)
  : list link :=
  match turns with
  | O => links
  | S turns' =>
      push_links page turns' (i + 1)
        (links ++ [mkLink i (i + 1) (bool_decide (page = i)) i])
  end.

(** [None] is the empty [<div/>]. *)
Definition render (page pages : Z) : option pager :=
  if decide (pages <= 1)%Z then None
  else
    let start := Z.max 0 (page - 7) in
    let end_ := Z.min pages (start + 15) in
    let links := push_links page (Z.to_nat (end_ - start)) start [] in
    Some (mkPager
            (mkButton (bool_decide (pages < 5)%Z) (bool_decide (page = 0%Z)) 0)
            (mkButton false (bool_decide (page = 0%Z)) (Z.max 0 (page - 1)))
            links
            (mkButton false (bool_decide (page = pages - 1)%Z)
               (Z.min (pages - 1) (page + 1)))
            (mkButton (bool_decide (pages < 5)%Z)
               (bool_decide (page = pages - 1)%Z) (pages - 1))).

End EndpointsPage.

(** * The endpoint handlers (package [mhandlers])

    The message loop of [endpointCommGet] and the handlers that change
    endpoints. The calls into the other packages ([endpoint], [event],
    [utils], [demo], gin and the websocket connection) are answered by the
    arguments; what a handler does is the list of its effects, in order. *)

Module mhandlers.

(** [strings.Index(msg, ":")]: the position of the first colon, or -1. *)
Fixpoint strings_Index_colon (msg : string) : Z :=
  match msg with
  | EmptyString => -1
  | String ch rest =>
      if decide (ch = ":"%char) then 0
      else
        let i := strings_Index_colon rest in
        if decide (i = -1)%Z then -1 else (i + 1)%Z
  end.

(** [msg[:sepIndex]] and [msg[sepIndex+1:]]. *)
Definition slice_to (msg : string) (sepIndex : Z) : string :=
  String.substring 0 (Z.to_nat sepIndex) msg.

Definition slice_from (msg : string) (from : Z) : string :=
  String.substring (Z.to_nat from) (String.length msg - Z.to_nat from) msg.





(** The document type and document of a message, as the loop splits it. *)
Definition split_message (msg : string) : option (string * string) :=
  let sepIndex := strings_Index_colon msg in
  if decide (sepIndex = -1)%Z then None
  else Some (slice_to msg sepIndex, slice_from msg (sepIndex + 1)).



(** ** The handlers that change endpoints *)

(** [primitive.ObjectID], by its hex form. *)
Definition ObjectID : Type := string.

(** [endpoint.Endpoint]: the two fields the handlers set, and the others. *)
Record Endpoint : Type := mkEndpoint {
  Name : string;
  Roles : list string;
  other : json
}.

Record endpointData : Type := mkData {
  data_Id : ObjectID;
  data_Name : string;
  data_Roles : list string
}.

(** [errortypes.ErrorData]. *)
Record ErrorData : Type := mkErrorData {
  Error : string;
  Message : string
}.

(** The errors a handler aborts with: one it was given, or one it wrapped
    as [errortypes.ParseError]. *)
Inductive failure : Type :=
| Given (err : error)
| ParseError (err : error).

Inductive body : Type :=
| EndpointBody (endpt : Endpoint)
| ErrorBody (errData : ErrorData)
| NilBody.

(** What a handler does to the database, the event bus and the response,
    with the answer of the database where there is one. *)
Inductive effect : Type :=
| AbortWithError (code : Z) (err : failure)
| AbortWithStatus (code : Z)
| JSON (code : Z) (b : body)
| CommitFields (endpt : Endpoint) (fields : gset string) (r : option error)
| Insert (endpt : Endpoint) (r : option error)
| Remove (endpointId : ObjectID) (r : option error)
| RemoveMulti (ids : list ObjectID) (r : option error)
| PublishDispatch (name : string).

(** [endpointPut]. [blocked] is [demo.Blocked(c)], [parsed] the result of
    [utils.ParseObjectId] on the path parameter ([None] when not ok),
    [bind] is [c.Bind] on the given initial data, [get] is [endpoint.Get],
    [validate] is [endpt.Validate] (the endpoint as it leaves the call,
    the error data, the error) and [commit] is [endpt.CommitFields]. *)
Definition endpointPut (blocked : bool) (parsed : option ObjectID)
    (bind : endpointData -> error + endpointData)
    (get : ObjectID -> error + Endpoint)
    (validate : Endpoint -> Endpoint * option ErrorData * option error)
    (commit : Endpoint -> gset string -> option error) : list effect :=
  if blocked then []
  else
    match parsed with
    | None => [AbortWithStatus 400]
    | Some endpointId =>
        match bind (mkData "" "" []) with
        | inl err =>
            [AbortWithError 500 (ParseError (Wrap err "handler: Bind error"))]
        | inr data =>
            match get endpointId with
            | inl err => [AbortWithError 500 (Given err)]
            | inr endpt =>
                let endpt := mkEndpoint (data_Name data) (Roles endpt) (other endpt) in
                let endpt := mkEndpoint (Name endpt) (data_Roles data) (other endpt) in
                let fields : gset string := {[ "name"; "roles" ]} in
                let '(endpt, errData, err) := validate endpt in
                match err with
                | Some err => [AbortWithError 500 (Given err)]
                | None =>
                    match errData with
                    | Some errData => [JSON 400 (ErrorBody errData)]
                    | None =>
                        match commit endpt fields with
                        | Some err =>
                            [CommitFields endpt fields (Some err);
                             AbortWithError 500 (Given err)]
                        | None =>
                            [CommitFields endpt fields None;
                             PublishDispatch "endpoint.change";
                             JSON 200 (EndpointBody endpt)]
                        end
                    end
                end
            end
        end
    end.

(** [endpointPost]; [insert] is [endpt.Insert], with the endpoint as it
    leaves the call. *)
Definition endpointPost (blocked : bool)
    (bind : endpointData -> error + endpointData)
    (validate : Endpoint -> Endpoint * option ErrorData * option error)
    (insert : Endpoint -> Endpoint * option error) : list effect :=
  if blocked then []
  else
    match bind (mkData "" "New Endpoint" []) with
    | inl err =>
        [AbortWithError 500 (ParseError (Wrap err "handler: Bind error"))]
    | inr data =>
        let endpt := mkEndpoint (data_Name data) (data_Roles data) JNull in
        let '(endpt, errData, err) := validate endpt in
        match err with
        | Some err => [AbortWithError 500 (Given err)]
        | None =>
            match errData with
            | Some errData => [JSON 400 (ErrorBody errData)]
            | None =>
                let '(inserted, err) := insert endpt in
                match err with
                | Some err =>
                    [Insert endpt (Some err); AbortWithError 500 (Given err)]
                | None =>
                    [Insert endpt None; PublishDispatch "endpoint.change";
                     JSON 200 (EndpointBody inserted)]
                end
            end
        end
    end.

(** [endpointDelete]; [remove] is [endpoint.Remove]. *)
Definition endpointDelete (blocked : bool) (parsed : option ObjectID)
    (remove : ObjectID -> option error) : list effect :=
  if blocked then []
  else
    match parsed with
    | None => [AbortWithStatus 400]
    | Some endpointId =>
        match remove endpointId with
        | Some err =>
            [Remove endpointId (Some err); AbortWithError 500 (Given err)]
        | None =>
            [Remove endpointId None; PublishDispatch "endpoint.change";
             JSON 200 NilBody]
        end
    end.

(** [endpointsDelete]; [bind] is [c.Bind] on the empty list of ids and
    [removeMulti] is [endpoint.RemoveMulti]. *)
Definition endpointsDelete (blocked : bool)
    (bind : list ObjectID -> error + list ObjectID)
    (removeMulti : list ObjectID -> option error) : list effect :=
  if blocked then []
  else
    match bind [] with
    | inl err => [AbortWithError 500 (Given err)]
    | inr dta =>
        match removeMulti dta with
        | Some err =>
            [RemoveMulti dta (Some err); AbortWithError 500 (Given err)]
        | None =>
            [RemoveMulti dta None; PublishDispatch "endpoint.change";
             JSON 200 NilBody]
        end
    end.

Definition is_response (e : effect) : bool :=
  match e with
  | AbortWithError _ _ | AbortWithStatus _ | JSON _ _ => true
  | _ => false
  end.

(** A call that changes the database, and whether it succeeded. *)
Definition write_result (e : effect) : option (option error) :=
  match e with
  | CommitFields _ _ r | Insert _ r | Remove _ r | RemoveMulti _ r => Some r
  | _ => None
  end.

Definition is_ok (e : effect) : bool :=
  match e with JSON 200 _ => true | _ => false end.

Definition is_publish (e : effect) : bool :=
  match e with PublishDispatch "endpoint.change" => true | _ => false end.

(** What the four handlers have in common: at most one response, and
    exactly one unless the demo mode blocked the request; at most one call
    that changes the database; either that call succeeded, the change was
    then published and the response is 200, in this order and with nothing
    else, or nothing was published and the response is not 200. *)
Definition orderly (blocked : bool) (effs : list effect) : Prop :=
  (if blocked then effs = [] else length (List.filter is_response effs) = 1)
  /\ length (omap write_result effs) <= 1
  /\ ((exists w b, effs = [w; PublishDispatch "endpoint.change"; JSON 200 b]
                   /\ write_result w = Some None)
      \/ (List.filter is_publish effs = [] /\ List.filter is_ok effs = []
          /\ forall w, w ∈ effs -> write_result w <> Some None)).

End mhandlers.

(** * The node heartbeat (package [node])

    [Node.update] and the loop of [Node.keepalive]. Memory and load figures
    are [float64] values that are only stored and passed on; they are kept
    abstract, with the zero the code writes when a measurement fails. *)

Module node.

Section Keepalive.

Variable float64 : Type.
Variable zero : float64.
Variable Time : Type.

Record Node : Type := mkNode {
  Id : string;
  Type_ : string;
  Timestamp : Time;
  Memory : float64;
  Load1 : float64;
  Load5 : float64;
  Load15 : float64
}.

(** What [utils.LoadAverage] returns. *)
Record LoadStat : Type := mkLoad {
  stat_Load1 : float64;
  stat_Load5 : float64;
  stat_Load15 : float64
}.

(** The ["$set"] document of [update]. *)
Record SetDoc : Type := mkSet {
  set_timestamp : Time;
  set_memory : float64;
  set_load1 : float64;
  set_load5 : float64;
  set_load15 : float64
}.

Inductive event : Type :=
| ApplyEv (id : string) (change : SetDoc) (r : error + Node)
| LogEv (err : error) (msg : string)
| SleepEv (seconds : nat).

(** [n.update(db)]: an upsert of the five figures on the document with the
    node's id, which returns the new document into [n]. [apply] answers for
    [coll.Find(...).Apply(change, n)]. *)
Definition update (apply : string -> SetDoc -> error + Node) (n : Node)
  : Node * option error * list event :=
  let change :=
    mkSet (Timestamp n) (Memory n) (Load1 n) (Load5 n) (Load15 n) in
  let r := apply (Id n) change in
  match r with
  | inl err => (n, Some err, [ApplyEv (Id n) change r])
  | inr n' => (n', None, [ApplyEv (Id n) change r])
  end.

(** What one turn of the loop reads from outside: [time.Now()],
    [utils.MemoryUsed()] and [utils.LoadAverage()]. *)
Record readings : Type := mkReadings {
  now : Time;
  memory_used : error + float64;
  load_average : error + LoadStat
}.

(** One turn of the [for] loop of [keepalive]. *)
Definition keepalive_turn (apply : string -> SetDoc -> error + Node)
    (n : Node) (rd : readings) : Node * list event :=
  let n := mkNode (Id n) (Type_ n) (now rd) (Memory n)
                  (Load1 n) (Load5 n) (Load15 n) in
  let '(n, evs1) :=
    match memory_used rd with
    | inl err =>
        (mkNode (Id n) (Type_ n) (Timestamp n) zero
                (Load1 n) (Load5 n) (Load15 n),
         [LogEv err "node: Failed to get memory"])
    | inr mem =>
        (mkNode (Id n) (Type_ n) (Timestamp n) mem
                (Load1 n) (Load5 n) (Load15 n), [])
    end in
  let '(n, evs2) :=
    match load_average rd with
    | inl err =>
        (mkNode (Id n) (Type_ n) (Timestamp n) (Memory n) zero zero zero,
         [LogEv err "node: Failed to get load"])
    | inr load =>
        (mkNode (Id n) (Type_ n) (Timestamp n) (Memory n)
                (stat_Load1 load) (stat_Load5 load) (stat_Load15 load), [])
    end in
  let '(n, err, evs3) := update apply n in
  let evs4 :=
    match err with
    | Some err => [LogEv err "node: Failed to update node"]
    | None => []
    end in
  (n, evs1 ++ evs2 ++ evs3 ++ evs4 ++ [SleepEv 1]).

(** As many turns as there are readings. *)
Fixpoint keepalive (apply : string -> SetDoc -> error + Node) (n : Node)
    (turns : list readings) : Node * list event :=
  match turns with
  | [] => (n, [])
  | rd :: turns' =>
      let '(n1, evs1) := keepalive_turn apply n rd in
      let '(n2, evs2) := keepalive apply n1 turns' in
      (n2, evs1 ++ evs2)
  end.

(** The figures a turn is to store for its readings. *)
Definition reported (rd : readings) : SetDoc :=
  mkSet (now rd)
        (match memory_used rd with inl _ => zero | inr mem => mem end)
        (match load_average rd with inl _ => zero | inr l => stat_Load1 l end)
        (match load_average rd with inl _ => zero | inr l => stat_Load5 l end)
        (match load_average rd with inl _ => zero | inr l => stat_Load15 l end).

Definition applied (e : event) : option SetDoc :=
  match e with ApplyEv _ change _ => Some change | _ => None end.

End Keepalive.

End node.

(** ** Basic facts *)

(** The digests of the RFC's test suite. *)
Example md5_empty :
  MD5.sum "" = [212; 29; 140; 217; 143; 0; 178; 4; 233; 128; 9; 152; 236; 248; 66; 126]%Z.
Proof. vm_compute. reflexivity. Qed.

Example md5_a :
  MD5.sum "a" = [12; 193; 117; 185; 192; 241; 182; 168; 49; 195; 153; 226; 105; 119; 38; 97]%Z.
Proof. vm_compute. reflexivity. Qed.

Example md5_abc :
  MD5.sum "abc" = [144; 1; 80; 152; 60; 210; 79; 176; 214; 150; 63; 125; 40; 225; 127; 114]%Z.
Proof. vm_compute. reflexivity. Qed.

Example md5_backend_1 :
  MD5.sum "backend-1" = [237; 145; 93; 131; 230; 120; 83; 242; 20; 160; 183; 229; 106; 236; 88; 41]%Z.
Proof. vm_compute. reflexivity. Qed.

Ltac unfold_M :=
  cbv beta iota zeta delta [mbind mret M_bind M_ret get modify exec eval] in *.

Lemma drain_requests (l acc : list BulkIndexRequest.t) :
  fold_left (fun requests request => requests ++ [request]) l acc = acc ++ l.
Proof.
  revert acc. induction l as [|x l IH]; intros acc; simpl.
  - by rewrite app_nil_r.
  - rewrite IH. by rewrite <- app_assoc.
Qed.

Lemma Bulk_Add_all (l : list BulkIndexRequest.t) (bulk : BulkService) :
  fold_left Bulk_Add l bulk
  = mkBulk (bulk_client bulk) (bulk_requests bulk ++ l).
Proof.
  revert bulk. induction l as [|x l IH]; intros [c rs]; simpl.
  - by rewrite app_nil_r.
  - rewrite IH. simpl. by rewrite <- app_assoc.
Qed.

Lemma events_since_app (tr evs : list event) (s : State) :
  trace s = tr ++ evs -> events_since tr s = evs.
Proof. intros H. unfold events_since. rewrite H. apply drop_app_length. Qed.

Lemma bytes_Compare_eq (a b : list Z) : bytes_Compare a b = 0%Z <-> a = b.
Proof.
  revert b. induction a as [|x a IH]; intros [|y b]; simpl; try done.
  destruct (Z.ltb_spec x y); [split; [done | intros [= -> _]; lia] |].
  destruct (Z.ltb_spec y x); [split; [done | intros [= -> _]; lia] |].
  rewrite IH. split; [intros ->; f_equal; lia | by intros [= _ ->]].
Qed.

Lemma extend_nil (s : State) : extend [] s = s.
Proof. destruct s. unfold extend. simpl. by rewrite app_nil_r. Qed.

Lemma extend_extend (evs1 evs2 : list event) (s : State) :
  extend evs2 (extend evs1 s) = extend (evs1 ++ evs2) s.
Proof. unfold extend. simpl. by rewrite app_assoc. Qed.

Lemma record_extend (e : event) (s : State) : record e s = extend [e] s.
Proof. done. Qed.

Lemma last_error_cons (err0 : option error) (e : error) (errs : list error) :
  last_error (Some e) errs = last_error err0 (e :: errs).
Proof.
  unfold last_error. destruct errs as [|e' errs]; [done|].
  change (last (e :: e' :: errs)) with (last (e' :: errs)).
  destruct (last (e' :: errs)) eqn:E; [done|].
  by apply last_None in E.
Qed.

(** *** The retry loop *)

(** What [bulk_attempts] does, in terms of the errors [errs] the world
    answered with before the loop ended: either fewer than [n] errors and
    then a success, or [n] errors. *)
Lemma bulk_attempts_spec (W : World) (n : nat) (c : Client)
    (reqs : list BulkIndexRequest.t) (err0 : option error) (s : State) :
  exists errs : list error,
    (forall i e, errs !! i = Some e ->
       Bulk_Do W (trace s ++ failed_rounds c reqs (take i errs)) c reqs = Some e)
    /\ ((length errs < n
         /\ Bulk_Do W (trace s ++ failed_rounds c reqs errs) c reqs = None
         /\ bulk_attempts W n c reqs err0 s
            = (None, extend (failed_rounds c reqs errs ++ [BulkEv c reqs None]) s))
        \/ (length errs = n
            /\ bulk_attempts W n c reqs err0 s
               = (last_error err0 errs, extend (failed_rounds c reqs errs) s))).
Proof.
  revert err0 s. induction n as [|n IH]; intros err0 s.
  - exists []. split; [intros i e; by rewrite lookup_nil|].
    right. split; [done|]. simpl. unfold_M. by rewrite extend_nil.
  - simpl. unfold_M. unfold Bulk_Do_call, time_Sleep. unfold_M.
    rewrite Bulk_Add_all. simpl.
    destruct (Bulk_Do W (trace s) c reqs) as [e|] eqn:E.
    + destruct (IH (Some e) (record (SleepEv 1) (record (BulkEv c reqs (Some e)) s)))
        as (errs & Hans & Hcase).
      assert (Htr : forall l,
                 trace (record (SleepEv 1) (record (BulkEv c reqs (Some e)) s))
                   ++ failed_rounds c reqs l
                 = trace s ++ failed_rounds c reqs (e :: l)).
      { intros l. simpl. by rewrite <- !app_assoc. }
      exists (e :: errs). split.
      * intros [|i] e' Hi; simpl in Hi.
        -- injection Hi as <-. simpl. by rewrite app_nil_r.
        -- change (take (S i) (e :: errs)) with (e :: take i errs).
           rewrite <- Htr. by apply Hans.
      * destruct Hcase as [(Hlen & Hok & Hrun)|(Hlen & Hrun)].
        -- left. split; [simpl; lia|]. split; [by rewrite <- Htr|].
           rewrite Hrun. f_equal. rewrite !record_extend, !extend_extend.
           f_equal.
        -- right. split; [simpl; lia|].
           rewrite Hrun. f_equal; [apply last_error_cons|].
           rewrite !record_extend, !extend_extend. f_equal.
    + exists []. split; [intros i e; by rewrite lookup_nil|].
      left. split; [simpl; lia|]. simpl. rewrite app_nil_r. done.
Qed.

Lemma count_failed_rounds (c : Client) (reqs : list BulkIndexRequest.t)
    (errs : list error) :
  count_events is_Bulk (failed_rounds c reqs errs) = length errs.
Proof.
  unfold count_events. induction errs as [|e errs IH]; simpl; [done|].
  by rewrite IH.
Qed.

Lemma count_events_app (p : event -> bool) (tr1 tr2 : list event) :
  count_events p (tr1 ++ tr2) = count_events p tr1 + count_events p tr2.
Proof. unfold count_events. by rewrite List.filter_app, length_app. Qed.

(** *** [deliver] and [worker_tick] *)

Lemma worker_tick_unfold (W : World) (s : State) :
  worker_tick W s
  = deliver W (buffer s) (set_buffer [] (record (SleepEv 2) s)).
Proof.
  unfold worker_tick, drain, time_Sleep. unfold_M. simpl.
  by rewrite drain_requests.
Qed.

Lemma deliver_absent (W : World) (reqs : list BulkIndexRequest.t) (s : State) :
  client s = None -> deliver W reqs s = (tt, s).
Proof. intros H. unfold deliver. unfold_M. by rewrite H. Qed.

Lemma deliver_empty (W : World) (s : State) : deliver W [] s = (tt, s).
Proof. unfold deliver. unfold_M. by destruct (client s). Qed.

Lemma deliver_present (W : World) (reqs : list BulkIndexRequest.t)
    (c : Client) (s : State) :
  client s = Some c -> reqs <> [] ->
  exists errs : list error,
    (forall i e, errs !! i = Some e ->
       Bulk_Do W (trace s ++ failed_rounds c reqs (take i errs)) c reqs = Some e)
    /\ ((length errs < 10
         /\ Bulk_Do W (trace s ++ failed_rounds c reqs errs) c reqs = None
         /\ deliver W reqs s
            = (tt, extend (failed_rounds c reqs errs ++ [BulkEv c reqs None]) s))
        \/ (exists e, length errs = 10 /\ last errs = Some e
            /\ deliver W reqs s
               = (tt, mkState (client s) (buffer s) (failedBuffer s ++ reqs)
                        (trace s ++ failed_rounds c reqs errs
                                 ++ [LogErrorEv e bulk_failed_msg])))).
Proof.
  intros Hc Hne.
  destruct (bulk_attempts_spec W 10 c reqs None s) as (errs & Hans & Hcase).
  exists errs. split; [done|].
  unfold deliver. unfold_M. rewrite Hc.
  destruct (decide (length reqs = 0)) as [H0|_].
  { by destruct reqs. }
  destruct Hcase as [(Hlen & Hok & Hrun)|(Hlen & Hrun)].
  - left. by rewrite Hrun.
  - right. rewrite Hrun. unfold last_error.
    destruct (last errs) as [e|] eqn:El.
    + exists e. repeat split; try done.
      unfold logrus_Error. unfold_M. unfold record, set_failedBuffer, extend.
      simpl. by rewrite Hc, <- app_assoc.
    + apply last_None in El. by subst errs.
Qed.

Lemma deliver_buffer (W : World) (reqs : list BulkIndexRequest.t) (s : State) :
  buffer (exec (deliver W reqs) s) = buffer s
  /\ client (exec (deliver W reqs) s) = client s.
Proof.
  unfold exec. destruct (client s) as [c|] eqn:Hc.
  - destruct reqs as [|r reqs].
    + by rewrite deliver_empty.
    + destruct (deliver_present W (r :: reqs) c s Hc) as (errs & _ & Hcase);
        [done|].
      destruct Hcase as [(_ & _ & ->)|(e & _ & _ & ->)]; done.
  - by rewrite deliver_absent.
Qed.

Lemma worker_tick_idle (W : World) (s : State) :
  client s = None \/ buffer s = [] ->
  exec (worker_tick W) s
  = mkState (client s) [] (failedBuffer s) (trace s ++ [SleepEv 2]).
Proof.
  intros H. unfold exec. rewrite worker_tick_unfold.
  destruct H as [H|H].
  - by rewrite deliver_absent.
  - by rewrite H, deliver_empty.
Qed.

Lemma worker_tick_buffer (W : World) (s : State) :
  buffer (exec (worker_tick W) s) = [].
Proof.
  unfold exec. rewrite worker_tick_unfold.
  apply (deliver_buffer W (buffer s) (set_buffer [] (record (SleepEv 2) s))).
Qed.

Lemma Index_absent (W : World) (index typ : string) (data : json) (s : State) :
  client s = None -> Index W index typ data s = (tt, s).
Proof. intros Hc. unfold Index. unfold_M. by rewrite Hc. Qed.

Lemma Index_present (W : World) (index typ : string) (data : json)
    (s : State) (c : Client) :
  client s = Some c ->
  Index W index typ data s
  = (tt, mkState (Some c)
           (buffer s
              ++ [BulkIndexRequest.mk index typ
                    (bson_NewObjectId W (ids_issued (trace s))) data])
           (failedBuffer s)
           (trace s ++ [NewObjectIdEv (bson_NewObjectId W (ids_issued (trace s)))])).
Proof.
  intros Hc. unfold Index, NewObjectId_Hex, PushBack. unfold_M.
  rewrite Hc. simpl. unfold set_buffer, record. simpl. by rewrite Hc.
Qed.

(** ** The flush worker *)

(** C1. Every tick of the flush worker first takes the whole ingest buffer
    as its batch and leaves an empty buffer behind, whether or not a client
    is present. When the client is absent or the batch is empty the tick
    then ends: nothing is submitted, the dead-letter buffer and the client
    are as before, the only event is the tick's sleep; a batch drained while
    the client is absent leaves no mark on the resulting state. *)
Theorem worker_tick_drains_then_discards (W : World) (s : State) :
  drain s = (buffer s, set_buffer [] s)
  /\ worker_tick W s
     = deliver W (buffer s) (set_buffer [] (record (SleepEv 2) s))
  /\ buffer (exec (worker_tick W) s) = []
  /\ (client s = None \/ buffer s = [] ->
      exec (worker_tick W) s
      = mkState (client s) [] (failedBuffer s) (trace s ++ [SleepEv 2]))
  /\ (client s = None ->
      forall batch : list BulkIndexRequest.t,
        exec (worker_tick W) (set_buffer batch s)
        = exec (worker_tick W) (set_buffer [] s)).
Proof.
  split; [|split; [|split; [|split]]].
  - unfold drain. by rewrite drain_requests.
  - apply worker_tick_unfold.
  - apply worker_tick_buffer.
  - apply worker_tick_idle.
  - intros Hc batch. rewrite !worker_tick_idle by (left; exact Hc). done.
Qed.

Lemma worker_tick_drains_then_discards_witness :
  exec (worker_tick calm) disabled_pending = mkState None [] [] [SleepEv 2]
  /\ exec (worker_tick calm) enabled_idle
     = mkState (Some backend_1) [] [] [SleepEv 2].
Proof.
  split.
  - apply (proj1 (proj2 (proj2 (proj2
             (worker_tick_drains_then_discards calm disabled_pending))))).
    left. reflexivity.
  - apply (proj1 (proj2 (proj2 (proj2
             (worker_tick_drains_then_discards calm enabled_idle))))).
    right. reflexivity.
Defined.

(** ** The ingestion entry point *)

(** C5. [Index] has no result and no error to give back. With the client
    absent it leaves the whole state as it was; with the client present it
    appends exactly one request, built from its arguments and a newly
    generated id, to the end of the ingest buffer, and touches neither the
    dead-letter buffer nor the client. *)
Theorem Index_drops_or_appends_one (W : World) (index typ : string)
    (data : json) (s : State) :
  eval (Index W index typ data) s = tt
  /\ (client s = None -> exec (Index W index typ data) s = s)
  /\ (forall c, client s = Some c ->
      let hex := bson_NewObjectId W (ids_issued (trace s)) in
      exec (Index W index typ data) s
      = mkState (Some c)
                (buffer s ++ [BulkIndexRequest.mk index typ hex data])
                (failedBuffer s)
                (trace s ++ [NewObjectIdEv hex])).
Proof.
  split; [by destruct (eval (Index W index typ data) s)|].
  unfold exec. split.
  - intros Hc. by rewrite Index_absent.
  - intros c Hc. by rewrite (Index_present W index typ data s c).
Qed.

Lemma Index_drops_or_appends_one_witness :
  exec (Index calm "zero-requests" "request" user_a) initial = initial
  /\ exec (Index calm "zero-requests" "request" user_a) enabled_idle
     = mkState (Some backend_1) [pending_request] [] [NewObjectIdEv "0"].
Proof.
  split.
  - apply (proj1 (proj2
             (Index_drops_or_appends_one calm "zero-requests" "request"
                user_a initial))).
    reflexivity.
  - apply (proj2 (proj2
             (Index_drops_or_appends_one calm "zero-requests" "request"
                user_a enabled_idle)) backend_1).
    reflexivity.
Defined.

(** C3. A tick that finds the client present and a batch of [N] requests
    submits the batch at most ten times. [errs] are the errors the world
    answered with: each failed submission is followed by a one-second
    sleep; the first submission that succeeds is the tick's last event and
    leaves the dead-letter buffer alone; after ten errors the whole batch
    goes to the end of the dead-letter buffer, which grows by exactly [N].
    Either way the ingest buffer is empty and the client still present
    afterwards, and the next tick runs as any tick does (with nothing
    buffered, it only sleeps). *)
Theorem worker_tick_bounded_retry (W : World) (s : State) (c : Client) :
  client s = Some c -> buffer s <> [] ->
  let batch := buffer s in
  let s' := exec (worker_tick W) s in
  count_events is_Bulk (events_since (trace s) s') <= 10
  /\ buffer s' = [] /\ client s' = Some c
  /\ exec (worker_tick W) s' = record (SleepEv 2) s'
  /\ exists errs : list error,
       (forall i e, errs !! i = Some e ->
          Bulk_Do W (trace s ++ SleepEv 2 :: failed_rounds c batch (take i errs))
                  c batch = Some e)
       /\ ((length errs < 10
            /\ Bulk_Do W (trace s ++ SleepEv 2 :: failed_rounds c batch errs)
                       c batch = None
            /\ events_since (trace s) s'
               = SleepEv 2 :: failed_rounds c batch errs ++ [BulkEv c batch None]
            /\ failedBuffer s' = failedBuffer s)
           \/ (exists e, length errs = 10 /\ last errs = Some e
               /\ events_since (trace s) s'
                  = SleepEv 2 :: failed_rounds c batch errs
                      ++ [LogErrorEv e bulk_failed_msg]
               /\ failedBuffer s' = failedBuffer s ++ batch
               /\ length (failedBuffer s')
                  = length (failedBuffer s) + length batch)).
Proof.
  intros Hc Hne batch s'.
  set (s1 := set_buffer [] (record (SleepEv 2) s)).
  assert (Hs' : s' = snd (deliver W batch s1)).
  { subst s'. unfold exec. by rewrite worker_tick_unfold. }
  clearbody s'.
  destruct (deliver_present W batch c s1 Hc Hne) as (errs & Hans & Hcase).
  assert (Htr : forall l, trace s1 ++ l = trace s ++ SleepEv 2 :: l).
  { intros l. simpl. by rewrite <- app_assoc. }
  assert (Hend : forall s2 : State, buffer s2 = [] ->
            exec (worker_tick W) s2 = record (SleepEv 2) s2).
  { intros s2 Hb. rewrite worker_tick_idle by (by right).
    unfold record. by rewrite Hb. }
  destruct Hcase as [(Hlen & Hok & Hrun)|(e & Hlen & Hlast & Hrun)];
    rewrite Hrun in Hs'; simpl in Hs'; subst s'; simpl.
  - rewrite (events_since_app (trace s)
               (SleepEv 2 :: failed_rounds c batch errs ++ [BulkEv c batch None]))
      by (simpl; by rewrite <- app_assoc).
    split.
    { change (SleepEv 2 :: failed_rounds c batch errs ++ [BulkEv c batch None])
        with ([SleepEv 2] ++ failed_rounds c batch errs ++ [BulkEv c batch None]).
      rewrite !count_events_app, count_failed_rounds.
      unfold count_events. simpl. lia. }
    split; [done|]. split; [done|]. split; [by apply Hend|].
    exists errs. split.
    { intros i e Hi. rewrite <- Htr. by apply Hans. }
    left. rewrite <- Htr. done.
  - rewrite (events_since_app (trace s)
               (SleepEv 2 :: failed_rounds c batch errs
                  ++ [LogErrorEv e bulk_failed_msg]))
      by (simpl; by rewrite <- app_assoc).
    split.
    { change (SleepEv 2 :: failed_rounds c batch errs
                ++ [LogErrorEv e bulk_failed_msg])
        with ([SleepEv 2] ++ failed_rounds c batch errs
                ++ [LogErrorEv e bulk_failed_msg]).
      rewrite !count_events_app, count_failed_rounds.
      unfold count_events. simpl. lia. }
    split; [done|]. split; [done|]. split; [by apply Hend|].
    exists errs. split.
    { intros i e' Hi. rewrite <- Htr. by apply Hans. }
    right. exists e. rewrite length_app. done.
Qed.

Lemma worker_tick_bounded_retry_witness :
  count_events is_Bulk
    (events_since (trace enabled_three) (exec (worker_tick bulk_down) enabled_three))
  <= 10
  /\ buffer (exec (worker_tick bulk_down) enabled_three) = [].
Proof.
  pose proof (worker_tick_bounded_retry bulk_down enabled_three backend_1
                eq_refl ltac:(discriminate)) as H.
  split; [exact (proj1 H) | exact (proj1 (proj2 H))].
Defined.

(** Scenario B of the design document: every submission of a batch of three
    fails; afterwards the dead-letter buffer holds the three requests, the
    ingest buffer is empty, ten submissions were made, and a later enqueue
    and tick deliver normally once the backend answers again. *)
Example dead_letter_scenario :
  let s1 := exec (worker_tick (flaky 10)) enabled_three in
  failedBuffer s1 = three_requests
  /\ buffer s1 = []
  /\ count_events is_Bulk (trace s1) = 10
  /\ let s2 := exec (_ ← Index (flaky 10) "zero-requests" "request" user_a;
                     worker_tick (flaky 10)) s1 in
     failedBuffer s2 = three_requests
     /\ buffer s2 = []
     /\ last (trace s2)
        = Some (BulkEv backend_1
                  [BulkIndexRequest.mk "zero-requests" "request" "0" user_a]
                  None).
Proof. vm_compute. repeat split. Qed.

(** ** Delivery when the backend answers *)

Lemma ids_issued_app (tr1 tr2 : list event) :
  ids_issued (tr1 ++ tr2) = ids_issued tr1 + ids_issued tr2.
Proof. unfold ids_issued. by rewrite List.filter_app, length_app. Qed.

Lemma bulk_payloads_app (tr1 tr2 : list event) :
  bulk_payloads (tr1 ++ tr2) = bulk_payloads tr1 ++ bulk_payloads tr2.
Proof. apply omap_app. Qed.








(** Scenario A of the design document: after a reconfiguration to
    ["backend-1"] and five identical enqueues, the next tick issues one bulk
    submission of five index actions with ids "0" to "4", all of type
    "request" for index "zero-requests". *)
Example five_enqueues_scenario :
  let p := run calm (Watch ["backend-1"] :: five_enqueues ++ [Tick]) start in
  bulk_payloads (trace (globals p))
  = [ (fun hex => BulkIndexRequest.mk "zero-requests" "request" hex user_a)
        <$> ["0"; "1"; "2"; "3"; "4"] ]
  /\ buffer (globals p) = [].
Proof. vm_compute. split; reflexivity. Qed.

(** ** Index provisioning and reconfiguration *)

(** [putIndex], by the answer to the existence check. *)
Lemma putIndex_spec (W : World) (c : Client) (index typ : string)
    (mappings : list mapping.t) (s : State) :
  putIndex W c index typ mappings s
  = match IndexExists_Do W (trace s) c index with
    | inl e =>
        (Some (DatabaseError (Wrap e check_failed_msg)),
         extend [IndexExistsEv c index (inl e)] s)
    | inr true => (None, extend [IndexExistsEv c index (inr true)] s)
    | inr false =>
        let body := index_body typ mappings in
        let r := CreateIndex_Do W (trace s ++ [IndexExistsEv c index (inr false)])
                   c index body in
        (database_error r create_failed_msg,
         extend [IndexExistsEv c index (inr false);
                 CreateIndexEv c index body r] s)
    end.
Proof.
  unfold putIndex, IndexExists_call, CreateIndex_call. unfold_M.
  destruct (IndexExists_Do W (trace s) c index) as [e|[|]] eqn:E; try done.
  simpl.
  destruct (CreateIndex_Do W (trace s ++ [IndexExistsEv c index (inr false)])
              c index (index_body typ mappings)) as [e|] eqn:E2;
    simpl; rewrite !record_extend, extend_extend; done.
Qed.

(** [update], step by step. *)
Lemma update_spec (W : World) (addrs : list string) (s : State) :
  update W addrs s
  = match addrs with
    | [] => (None, set_client None s)
    | _ :: _ =>
        match elastic_NewClient W (trace s) addrs with
        | Some e =>
            (Some (DatabaseError (Wrap e client_failed_msg)),
             set_client None (record (NewClientEv addrs (Some e)) s))
        | None =>
            let c := mkClient (length (trace s)) addrs in
            let '(err, s2) :=
              putIndex W c "zero-requests" "request" request_mappings
                (record (NewClientEv addrs None) s) in
            match err with
            | Some e => (Some e, set_client None s2)
            | None => (None, set_client (Some c) s2)
            end
        end
    end.
Proof.
  unfold update, newClient, elastic_NewClient_call. unfold_M.
  destruct addrs as [|a addrs]; [done|].
  destruct (decide (length (a :: addrs) = 0)) as [H|_]; [done|].
  destruct (elastic_NewClient W (trace s) (a :: addrs)) as [e|]; [done|].
  destruct (putIndex W _ _ _ _ _) as [[e|] s2]; done.
Qed.

(** C4. [update] either installs a fully provisioned client or leaves the
    client absent. With no addresses it returns no error, makes no call and
    clears the client. A failed client construction, a failed existence
    check and a failed index creation each return the wrapped error and
    clear the client, whatever it was before, although in the last two cases
    a client had been constructed. The client is present afterwards exactly
    when the address list is non-empty, the construction succeeded, and the
    index was found or was created without error; it is then the newly
    constructed client and no error is returned. The buffers are not
    touched. *)
Theorem update_all_or_nothing (W : World) (addrs : list string) (s : State) :
  let err := eval (update W addrs) s in
  let s' := exec (update W addrs) s in
  let c := mkClient (length (trace s)) addrs in
  let tr1 := trace s ++ [NewClientEv addrs None] in
  let tr2 := tr1 ++ [IndexExistsEv c "zero-requests" (inr false)] in
  let body := index_body "request" request_mappings in
  let constructed := elastic_NewClient W (trace s) addrs in
  let found := IndexExists_Do W tr1 c "zero-requests" in
  let created := CreateIndex_Do W tr2 c "zero-requests" body in
  (buffer s' = buffer s /\ failedBuffer s' = failedBuffer s)
  /\ (addrs = [] -> err = None /\ client s' = None /\ trace s' = trace s)
  /\ (addrs <> [] -> forall e, constructed = Some e ->
      err = Some (DatabaseError (Wrap e client_failed_msg))
      /\ client s' = None)
  /\ (addrs <> [] -> constructed = None -> forall e, found = inl e ->
      err = Some (DatabaseError (Wrap e check_failed_msg))
      /\ client s' = None)
  /\ (addrs <> [] -> constructed = None -> found = inr false ->
      forall e, created = Some e ->
      err = Some (DatabaseError (Wrap e create_failed_msg))
      /\ client s' = None)
  /\ (is_Some err -> client s' = None)
  /\ (is_Some (client s') <->
      addrs <> [] /\ constructed = None
      /\ (found = inr true \/ (found = inr false /\ created = None)))
  /\ (is_Some (client s') -> client s' = Some c /\ err = None).
Proof.
  intros err s' c tr1 tr2 body constructed found created.
  subst err s'. unfold eval, exec. rewrite update_spec.
  destruct addrs as [|a addrs].
  { simpl. repeat split; try done; naive_solver. }
  fold constructed. destruct constructed as [e|] eqn:Ec.
  { simpl. repeat split; try done; naive_solver. }
  cbv zeta. rewrite putIndex_spec. simpl trace. fold c tr1 found.
  destruct found as [e|[|]] eqn:Ef.
  - simpl. repeat split; try done; naive_solver.
  - simpl. repeat split; try done; naive_solver.
  - cbv zeta. fold tr2 body created.
    destruct created as [e|] eqn:Ecr; simpl;
      repeat split; try done; naive_solver.
Qed.

Lemma update_all_or_nothing_witness :
  client (exec (update calm []) enabled_busy) = None
  /\ client (exec (update create_down ["backend-2"]) enabled_busy) = None.
Proof.
  split.
  - apply (proj1 (proj2 (update_all_or_nothing calm [] enabled_busy))).
    reflexivity.
  - pose proof (update_all_or_nothing create_down ["backend-2"] enabled_busy)
      as (_ & _ & _ & _ & H & _).
    apply (H ltac:(discriminate) eq_refl eq_refl unreachable eq_refl).
Defined.

(** *** Index creations along a run *)

Lemma count_events_none (p : event -> bool) (tr : list event) :
  (forall e, e ∈ tr -> p e = false) -> count_events p tr = 0.
Proof.
  unfold count_events. induction tr as [|e tr IH]; intros H; [done|].
  simpl. rewrite (H e) by apply list_elem_of_here.
  apply IH. intros e' He'. apply H. by apply list_elem_of_further.
Qed.

Lemma count_events_le (p q : event -> bool) (tr : list event) :
  (forall e, p e = true -> q e = true) ->
  count_events p tr <= count_events q tr.
Proof.
  intros Hpq. unfold count_events. induction tr as [|e tr IH]; [done|].
  simpl. destruct (p e) eqn:Ep.
  - rewrite (Hpq e Ep). simpl. lia.
  - destruct (q e); simpl; lia.
Qed.

Lemma no_creation_ok (n : nat) (evs : list event) :
  (forall e, e ∈ evs -> is_CreateIndex e = false) -> step_creations_ok n evs.
Proof.
  intros H. split.
  - rewrite count_events_none by done. lia.
  - intros c i b r Hin. by apply H in Hin.
Qed.

Lemma update_events (W : World) (addrs : list string) (s : State) :
  exists evs : list event,
    trace (exec (update W addrs) s) = trace s ++ evs
    /\ step_creations_ok (length (trace s)) evs.
Proof.
  unfold exec. rewrite update_spec.
  destruct addrs as [|a addrs].
  { exists []. simpl. rewrite app_nil_r. split; [done|].
    apply no_creation_ok. by intros e ?%elem_of_nil. }
  destruct (elastic_NewClient W (trace s) (a :: addrs)) as [e|].
  { exists [NewClientEv (a :: addrs) (Some e)]. split; [done|].
    apply no_creation_ok. by intros e' ->%list_elem_of_singleton. }
  cbv zeta. rewrite putIndex_spec. simpl trace.
  set (c := mkClient _ _).
  destruct (IndexExists_Do W _ c "zero-requests") as [e|[|]].
  - exists [NewClientEv (a :: addrs) None;
            IndexExistsEv c "zero-requests" (inl e)].
    split; [simpl; by rewrite <- app_assoc|].
    apply no_creation_ok. intros e' He'.
    repeat (apply elem_of_cons in He' as [->|He']; [done|]).
    by apply elem_of_nil in He'.
  - exists [NewClientEv (a :: addrs) None;
            IndexExistsEv c "zero-requests" (inr true)].
    split; [simpl; by rewrite <- app_assoc|].
    apply no_creation_ok. intros e' He'.
    repeat (apply elem_of_cons in He' as [->|He']; [done|]).
    by apply elem_of_nil in He'.
  - cbv zeta.
    set (r := CreateIndex_Do W _ c "zero-requests" _).
    exists [NewClientEv (a :: addrs) None;
            IndexExistsEv c "zero-requests" (inr false);
            CreateIndexEv c "zero-requests"
              (index_body "request" request_mappings) r].
    split; [destruct r; simpl; by rewrite <- app_assoc|].
    split; [unfold count_events; simpl; lia|].
    intros c' i b r' He'.
    repeat (apply elem_of_cons in He' as [He'|He']; [try done|]).
    + by injection He' as -> -> -> _.
    + by apply elem_of_nil in He'.
Qed.

Lemma step_creations_ok_app (n : nat) (evs quiet : list event) :
  step_creations_ok n evs ->
  (forall e, e ∈ quiet -> is_CreateIndex e = false) ->
  step_creations_ok n (evs ++ quiet).
Proof.
  intros [Hcount Hin] Hq. split.
  - rewrite count_events_app, (count_events_none _ quiet) by done. lia.
  - intros c i b r [H|H]%elem_of_app; [by eapply Hin|by apply Hq in H].
Qed.

Lemma watch_iteration_events (W : World) (hash : list Z)
    (addrs : list string) (s : State) :
  exists evs : list event,
    trace (exec (watch_iteration W hash addrs) s) = trace s ++ evs
    /\ step_creations_ok (length (trace s)) evs.
Proof.
  unfold exec, watch_iteration, time_Sleep, logrus_Error. unfold_M.
  destruct (decide _) as [_|_].
  - destruct (update_events W addrs s) as (evs & Htr & Hok).
    unfold exec in Htr. destruct (update W addrs s) as [[e|] s1];
      simpl in *; rewrite Htr.
    + exists (evs ++ [LogErrorEv e update_failed_msg; SleepEv 3]).
      split; [by rewrite <- !app_assoc|].
      apply step_creations_ok_app; [done|]. intros e' He'.
      repeat (apply elem_of_cons in He' as [->|He']; [done|]).
      by apply elem_of_nil in He'.
    + exists (evs ++ [SleepEv 1]). split; [by rewrite <- !app_assoc|].
      apply step_creations_ok_app; [done|].
      by intros e' ->%list_elem_of_singleton.
  - exists [SleepEv 1]. split; [done|]. apply no_creation_ok.
    by intros e' ->%list_elem_of_singleton.
Qed.

Lemma failed_rounds_quiet (c : Client) (reqs : list BulkIndexRequest.t)
    (errs : list error) (e : event) :
  e ∈ failed_rounds c reqs errs -> is_CreateIndex e = false.
Proof.
  induction errs as [|err errs IH]; simpl; [by intros ?%elem_of_nil|].
  intros He.
  repeat (apply elem_of_cons in He as [->|He]; [done|]). by apply IH.
Qed.

Lemma worker_tick_events (W : World) (s : State) :
  exists evs : list event,
    trace (exec (worker_tick W) s) = trace s ++ evs
    /\ (forall e, e ∈ evs -> is_CreateIndex e = false).
Proof.
  destruct (client s) as [c|] eqn:Hc; [destruct (buffer s) as [|r b] eqn:Hb|].
  - rewrite worker_tick_idle by (by right). exists [SleepEv 2]. split; [done|].
    by intros e ->%list_elem_of_singleton.
  - unfold exec. rewrite worker_tick_unfold.
    set (s1 := set_buffer [] (record (SleepEv 2) s)).
    destruct (deliver_present W (buffer s) c s1 Hc) as (errs & _ & Hcase);
      [by rewrite Hb|].
    destruct Hcase as [(_ & _ & ->)|(e & _ & _ & ->)]; simpl.
    + exists (SleepEv 2 :: failed_rounds c (buffer s) errs
                ++ [BulkEv c (buffer s) None]).
      split; [by rewrite <- !app_assoc|]. intros e He.
      apply elem_of_cons in He as [->|He]; [done|].
      apply elem_of_app in He as [He|He];
        [by eapply failed_rounds_quiet|].
      by apply list_elem_of_singleton in He as ->.
    + exists (SleepEv 2 :: failed_rounds c (buffer s) errs
                ++ [LogErrorEv e bulk_failed_msg]).
      split; [by rewrite <- !app_assoc|]. intros e' He.
      apply elem_of_cons in He as [->|He]; [done|].
      apply elem_of_app in He as [He|He];
        [by eapply failed_rounds_quiet|].
      by apply list_elem_of_singleton in He as ->.
  - rewrite worker_tick_idle by (by left). exists [SleepEv 2]. split; [done|].
    by intros e ->%list_elem_of_singleton.
Qed.

Lemma step_events (W : World) (p : Process) (a : action) :
  exists evs : list event,
    trace (globals (step W p a)) = trace (globals p) ++ evs
    /\ step_creations_ok (length (trace (globals p))) evs.
Proof.
  destruct a as [index typ data| |addrs]; simpl.
  - unfold exec. destruct (client (globals p)) as [c|] eqn:Hc.
    + rewrite (Index_present W index typ data (globals p) c Hc).
      eexists. split; [done|].
      apply no_creation_ok. by intros e ->%list_elem_of_singleton.
    + rewrite Index_absent by done. exists []. split; [by rewrite app_nil_r|].
      apply no_creation_ok. by intros e ?%elem_of_nil.
  - destruct (worker_tick_events W (globals p)) as (evs & Htr & Hq).
    exists evs. split; [done|]. by apply no_creation_ok.
  - destruct (watch_iteration_events W (watcher_hash p) addrs (globals p))
      as (evs & Htr & Hok).
    unfold exec in Htr.
    destruct (watch_iteration W (watcher_hash p) addrs (globals p)).
    by exists evs.
Qed.

Lemma creations_ok_step (tr evs : list event) :
  creations_ok tr -> step_creations_ok (length tr) evs ->
  creations_ok (tr ++ evs).
Proof.
  intros [Hin Hcount] [Hcount' Hin']. split.
  - intros c i b r [H|H]%elem_of_app.
    + destruct (Hin c i b r H) as (Hlt & ? & ?). rewrite length_app.
      repeat split; [lia|done..].
    + destruct (Hin' c i b r H) as (Hs & ? & ?). rewrite length_app.
      destruct evs; [by apply elem_of_nil in H|]. simpl.
      repeat split; [lia|done..].
  - intros c. rewrite count_events_app.
    destruct (decide (serial c < length tr)) as [Hlt|Hge].
    + rewrite (count_events_none _ evs); [specialize (Hcount c); lia|].
      intros [] He; simpl; try done.
      apply bool_decide_eq_false. intros ->.
      apply Hin' in He as [? _]. lia.
    + rewrite (count_events_none _ tr).
      { etransitivity; [|exact Hcount']. apply count_events_le.
        by intros []. }
      intros [] He; simpl; try done.
      apply bool_decide_eq_false. intros ->.
      apply Hin in He as [? _]. lia.
Qed.

Lemma run_creations_ok (W : World) (schedule : list action) (p : Process) :
  creations_ok (trace (globals p)) ->
  creations_ok (trace (globals (run W schedule p))).
Proof.
  revert p. induction schedule as [|a schedule IH]; intros p Hp; [done|].
  change (run W (a :: schedule) p) with (run W schedule (step W p a)).
  apply IH. destruct (step_events W p a) as (evs & -> & Hok).
  by apply creations_ok_step.
Qed.

Lemma creations_ok_start : creations_ok (trace (globals start)).
Proof.
  split; [by intros c i b r ?%elem_of_nil|]. intros c. simpl.
  unfold count_events. simpl. lia.
Qed.

(** C8. [putIndex] always starts with the existence check and issues the
    creation call exactly when the check answers that the index is missing.
    When the index exists it returns no error after that single check, so
    the existing index is left as it is. It changes neither the client nor
    the buffers. In any run of the process from its start, no client issues
    more than one index creation. *)
Theorem putIndex_creates_only_when_missing (W : World) (c : Client)
    (index typ : string) (mappings : list mapping.t) (s : State) :
  let found := IndexExists_Do W (trace s) c index in
  let err := eval (putIndex W c index typ mappings) s in
  let s' := exec (putIndex W c index typ mappings) s in
  let evs := events_since (trace s) s' in
  (client s' = client s /\ buffer s' = buffer s
   /\ failedBuffer s' = failedBuffer s)
  /\ head evs = Some (IndexExistsEv c index found)
  /\ count_events is_CreateIndex evs
     = match found with inr false => 1 | _ => 0 end
  /\ (found = inr true ->
      err = None /\ evs = [IndexExistsEv c index (inr true)])
  /\ (found = inr false ->
      let body := index_body typ mappings in
      let r := CreateIndex_Do W (trace s ++ [IndexExistsEv c index (inr false)])
                 c index body in
      err = database_error r create_failed_msg
      /\ evs = [IndexExistsEv c index (inr false);
                CreateIndexEv c index body r])
  /\ (forall (schedule : list action) (c' : Client),
        count_events (creates_for c')
          (trace (globals (run W schedule start))) <= 1).
Proof.
  intros found err s' evs. subst err s' evs. unfold eval, exec.
  rewrite putIndex_spec. fold found.
  split; [|split; [|split; [|split; [|split]]]].
  - by destruct found as [e|[|]].
  - destruct found as [e|[|]]; cbv zeta; simpl snd;
      by erewrite events_since_app by reflexivity.
  - destruct found as [e|[|]]; cbv zeta; simpl snd;
      by erewrite events_since_app by reflexivity.
  - intros ->. simpl. by erewrite events_since_app by reflexivity.
  - intros ->. cbv zeta. simpl. by erewrite events_since_app by reflexivity.
  - intros schedule c'.
    apply (run_creations_ok W schedule start creations_ok_start).
Qed.

Lemma putIndex_creates_only_when_missing_witness :
  events_since [] (exec (putIndex provisioned backend_1 "zero-requests"
                           "request" request_mappings) enabled_idle)
  = [IndexExistsEv backend_1 "zero-requests" (inr true)]
  /\ count_events is_CreateIndex
       (events_since [] (exec (putIndex calm backend_1 "zero-requests"
                                 "request" request_mappings) enabled_idle))
     = 1.
Proof.
  split.
  - pose proof (putIndex_creates_only_when_missing provisioned backend_1
                  "zero-requests" "request" request_mappings enabled_idle)
      as (_ & _ & _ & H & _).
    apply H. reflexivity.
  - pose proof (putIndex_creates_only_when_missing calm backend_1
                  "zero-requests" "request" request_mappings enabled_idle)
      as (_ & _ & H & _).
    exact H.
Defined.

(** ** What [Index] accepts *)

(** C10. [Index] takes its index name and document type as they come: for
    any two strings, when the client is present, the request built from them
    is appended to the ingest buffer, and the first submission of the next
    tick carries the whole buffer, ending with that request under exactly
    these names. No index other than "zero-requests" is created in any run
    of the process. *)
Theorem Index_takes_any_names (W : World) (index typ : string) (data : json)
    (s : State) (c : Client) :
  client s = Some c ->
  let request :=
    BulkIndexRequest.mk index typ
      (bson_NewObjectId W (ids_issued (trace s))) data in
  let s1 := exec (Index W index typ data) s in
  let s2 := exec (worker_tick W) s1 in
  buffer s1 = buffer s ++ [request]
  /\ (exists r rest,
        events_since (trace s1) s2
        = SleepEv 2 :: BulkEv c (buffer s ++ [request]) r :: rest)
  /\ (forall (schedule : list action) c' i b r,
        CreateIndexEv c' i b r ∈ trace (globals (run W schedule start)) ->
        i = "zero-requests").
Proof.
  intros Hc request s1 s2. subst s2 s1. unfold exec.
  rewrite (Index_present W index typ data s c Hc). simpl snd. fold request.
  split; [done|]. split.
  - rewrite worker_tick_unfold. simpl buffer.
    set (s1 := set_buffer [] _).
    destruct (deliver_present W (buffer s ++ [request]) c s1 eq_refl)
      as (errs & _ & Hcase); [by destruct (buffer s)|].
    destruct Hcase as [(_ & _ & ->)|(e & Hlen & _ & ->)];
      (destruct errs as [|e1 errs]; simpl;
       [|exists (Some e1); eexists; apply events_since_app; simpl;
         rewrite <- !app_assoc; reflexivity]).
    + exists None, []. apply events_since_app. simpl.
      by rewrite <- !app_assoc.
    + done.
  - intros schedule c' i b r Hin.
    by apply (run_creations_ok W schedule start creations_ok_start) in Hin
      as (_ & ? & _).
Qed.

Lemma Index_takes_any_names_witness :
  buffer (exec (Index calm "" "" JNull) enabled_idle)
  = [BulkIndexRequest.mk "" "" "0" JNull].
Proof.
  apply (proj1 (Index_takes_any_names calm "" "" JNull enabled_idle backend_1
                  eq_refl)).
Defined.

(** ** The index-creation body *)

Lemma put_property_object (properties : gmap string json) (field : string)
    (store : bool) (index : string) :
  put_property properties (mapping.mk field "object" store index)
  = <[field := disabled_field]> properties.
Proof. done. Qed.

Lemma put_property_other (properties : gmap string json) (m : mapping.t) :
  mapping.Type_ m <> "object" ->
  put_property properties m
  = <[mapping.Field m :=
        typed_field (mapping.Type_ m) (mapping.Store m) (mapping.Index m)]>
      properties.
Proof. intros H. unfold put_property. by rewrite decide_False. Qed.

Lemma index_properties_snoc (mappings : list mapping.t) (m : mapping.t) :
  index_properties (mappings ++ [m])
  = put_property (index_properties mappings) m.
Proof. unfold index_properties. by rewrite fold_left_app. Qed.

(** C7. The body [update] hands to the index creation for "zero-requests"
    is [{"mappings": {"request": {"properties": P}}}] where [P] has exactly
    the ten fields of the catalog: user, session, scheme, host and path as
    keyword, address as ip, timestamp as date, each with its type, store and
    index entries; query and header as [{"enabled": false}]; body as text
    with index "no". In general a field of type object is written as
    [{"enabled": false}] whatever its store and index values, and a field of
    any other type as its type, store and index; every index creation in a
    run of the process is for "zero-requests" with this body. *)
Theorem request_index_body :
  index_body "request" request_mappings
  = JObject {[ "mappings" :=
      JObject {[ "request" :=
        JObject {[ "properties" :=
          JObject (list_to_map
            [ ("user", typed_field "keyword" false "analyzed");
              ("session", typed_field "keyword" false "analyzed");
              ("address", typed_field "ip" false "analyzed");
              ("timestamp", typed_field "date" false "analyzed");
              ("scheme", typed_field "keyword" false "analyzed");
              ("host", typed_field "keyword" false "analyzed");
              ("path", typed_field "keyword" false "analyzed");
              ("query", disabled_field);
              ("header", disabled_field);
              ("body", typed_field "text" false "no") ]) ]} ]} ]}
  /\ size (index_properties request_mappings) = 10
  /\ (forall (mappings : list mapping.t) (field : string) (store : bool)
        (index : string),
        index_properties (mappings ++ [mapping.mk field "object" store index])
          !! field
        = Some disabled_field)
  /\ (forall (mappings : list mapping.t) (m : mapping.t),
        mapping.Type_ m <> "object" ->
        index_properties (mappings ++ [m]) !! mapping.Field m
        = Some (typed_field (mapping.Type_ m) (mapping.Store m)
                  (mapping.Index m)))
  /\ (forall (W : World) (schedule : list action) c i b r,
        CreateIndexEv c i b r ∈ trace (globals (run W schedule start)) ->
        i = "zero-requests" /\ b = index_body "request" request_mappings).
Proof.
  split; [|split; [|split; [|split]]].
  - vm_compute. reflexivity.
  - vm_compute. reflexivity.
  - intros mappings field store index.
    rewrite index_properties_snoc, put_property_object.
    apply lookup_insert_eq.
  - intros mappings m Hm.
    rewrite index_properties_snoc, put_property_other by done.
    apply lookup_insert_eq.
  - intros W schedule c i b r Hin.
    by apply (run_creations_ok W schedule start creations_ok_start) in Hin
      as (_ & ? & ?).
Qed.

Lemma request_index_body_witness :
  index_properties ([] ++ [mapping.mk "body" "text" true "no"]) !! "body"
  = Some (typed_field "text" true "no").
Proof.
  apply (proj1 (proj2 (proj2 (proj2 request_index_body)))
           [] (mapping.mk "body" "text" true "no")).
  discriminate.
Defined.

(** ** The configuration watcher *)

Lemma string_app_assoc (a b c : string) : (a +:+ b) +:+ c = a +:+ b +:+ c.
Proof.
  induction a as [|x a IH]; [done|]. exact (f_equal (String x) IH).
Qed.

Lemma string_app_nil_r (a : string) : a +:+ "" = a.
Proof.
  induction a as [|x a IH]; [done|]. exact (f_equal (String x) IH).
Qed.

Lemma hashAddresses_concat (addrs : list string) :
  hashAddresses addrs = MD5.sum (concat_addresses addrs).
Proof.
  unfold hashAddresses. f_equal.
  change (concat_addresses addrs) with ("" +:+ concat_addresses addrs).
  generalize "". induction addrs as [|a addrs IH]; intros acc; simpl.
  - by rewrite string_app_nil_r.
  - by rewrite IH, string_app_assoc.
Qed.

Lemma watch_iteration_same (W : World) (hash : list Z) (addrs : list string)
    (s : State) :
  hash = hashAddresses addrs ->
  watch_iteration W hash addrs s = (hash, record (SleepEv 1) s).
Proof.
  intros ->. unfold watch_iteration, time_Sleep. unfold_M.
  rewrite decide_False; [done|]. intros H. apply H. by apply bytes_Compare_eq.
Qed.

Lemma watch_iteration_changed (W : World) (hash : list Z)
    (addrs : list string) (s : State) :
  hash <> hashAddresses addrs ->
  watch_iteration W hash addrs s
  = match update W addrs s with
    | (Some e, s1) =>
        (hash, record (SleepEv 3) (record (LogErrorEv e update_failed_msg) s1))
    | (None, s1) => (hashAddresses addrs, record (SleepEv 1) s1)
    end.
Proof.
  intros Hne. unfold watch_iteration, time_Sleep, logrus_Error. unfold_M.
  rewrite decide_True; [|by rewrite bytes_Compare_eq].
  by destruct (update W addrs s) as [[e|] s1].
Qed.

Lemma watch_loop_same (W : World) (addrs : list string) (n : nat) (s : State) :
  watch_loop W (hashAddresses addrs) (replicate n addrs) s
  = (hashAddresses addrs, extend (replicate n (SleepEv 1)) s).
Proof.
  revert s. induction n as [|n IH]; intros s; simpl.
  - unfold_M. by rewrite extend_nil.
  - unfold_M. rewrite watch_iteration_same by done. rewrite IH.
    by rewrite record_extend, extend_extend.
Qed.

(** C9. The fingerprint is the MD5 digest of the addresses written one
    after the other with nothing in between, so address lists with the same
    concatenation have the same fingerprint: ["ab"; "c"] and ["a"; "bc"],
    or ["x"] and ["x"; ""], differ as lists and agree in fingerprint. When
    the watcher has applied one list and the setting changes to another with
    the same concatenation, every later turn takes the setting as unchanged:
    it only sleeps, calls nothing and leaves the client as it is. *)
Theorem hashAddresses_ignores_boundaries :
  (forall addrs, hashAddresses addrs = MD5.sum (concat_addresses addrs))
  /\ (forall addrs1 addrs2,
        concat_addresses addrs1 = concat_addresses addrs2 ->
        hashAddresses addrs1 = hashAddresses addrs2)
  /\ (["ab"; "c"] <> ["a"; "bc"]
      /\ hashAddresses ["ab"; "c"] = hashAddresses ["a"; "bc"])
  /\ (["x"] <> ["x"; ""] /\ hashAddresses ["x"] = hashAddresses ["x"; ""])
  /\ (forall (W : World) (addrs1 addrs2 : list string) (n : nat) (s : State),
        concat_addresses addrs1 = concat_addresses addrs2 ->
        watch_loop W (hashAddresses addrs1) (replicate n addrs2) s
        = (hashAddresses addrs1, extend (replicate n (SleepEv 1)) s)).
Proof.
  assert (Heq : forall addrs1 addrs2,
            concat_addresses addrs1 = concat_addresses addrs2 ->
            hashAddresses addrs1 = hashAddresses addrs2).
  { intros addrs1 addrs2 H. by rewrite !hashAddresses_concat, H. }
  split; [apply hashAddresses_concat|]. split; [exact Heq|].
  split; [split; [discriminate|by apply Heq]|].
  split; [split; [discriminate|by apply Heq]|].
  intros W addrs1 addrs2 n s H. rewrite (Heq addrs1 addrs2 H).
  apply watch_loop_same.
Qed.

Lemma hashAddresses_ignores_boundaries_witness :
  watch_loop calm (hashAddresses ["ab"; "c"]) (replicate 3 ["a"; "bc"])
    enabled_idle
  = (hashAddresses ["ab"; "c"],
     extend [SleepEv 1; SleepEv 1; SleepEv 1] enabled_idle).
Proof.
  apply (proj2 (proj2 (proj2 (proj2 hashAddresses_ignores_boundaries)))
           calm ["ab"; "c"] ["a"; "bc"] 3 enabled_idle).
  reflexivity.
Defined.

Lemma update_counts (W : World) (addrs : list string) (s : State) :
  exists evs : list event,
    trace (exec (update W addrs) s) = trace s ++ evs
    /\ count_events is_NewClient evs <= 1
    /\ count_events is_CreateIndex evs <= 1.
Proof.
  unfold exec. rewrite update_spec.
  destruct addrs as [|a addrs].
  { exists []. simpl. rewrite app_nil_r. split; [done|].
    unfold count_events. simpl. lia. }
  destruct (elastic_NewClient W (trace s) (a :: addrs)) as [e|].
  { eexists [_]. split; [done|]. unfold count_events. simpl. lia. }
  cbv zeta. rewrite putIndex_spec. simpl trace.
  set (c := mkClient _ _).
  destruct (IndexExists_Do W _ c "zero-requests") as [e|[|]].
  - eexists [_; _]. split; [simpl; by rewrite <- app_assoc|].
    unfold count_events. simpl. lia.
  - eexists [_; _]. split; [simpl; by rewrite <- app_assoc|].
    unfold count_events. simpl. lia.
  - cbv zeta. set (r := CreateIndex_Do W _ c "zero-requests" _).
    exists [NewClientEv (a :: addrs) None;
            IndexExistsEv c "zero-requests" (inr false);
            CreateIndexEv c "zero-requests"
              (index_body "request" request_mappings) r].
    split; [destruct r; simpl; by rewrite <- app_assoc|].
    unfold count_events. simpl. lia.
Qed.

Lemma watch_iteration_counts (W : World) (hash : list Z) (addrs : list string)
    (s : State) :
  let evs := events_since (trace s) (exec (watch_iteration W hash addrs) s) in
  count_events is_NewClient evs <= 1 /\ count_events is_CreateIndex evs <= 1.
Proof.
  unfold exec. destruct (decide (hash = hashAddresses addrs)) as [Heq|Hne].
  - rewrite watch_iteration_same by done. simpl.
    rewrite (events_since_app _ [SleepEv 1]) by done.
    unfold count_events. simpl. lia.
  - rewrite watch_iteration_changed by done.
    destruct (update_counts W addrs s) as (evs & Htr & Hn & Hc).
    unfold exec in Htr. destruct (update W addrs s) as [[e|] s1]; simpl in *.
    + rewrite (events_since_app _
                 (evs ++ [LogErrorEv e update_failed_msg; SleepEv 3]))
        by (simpl; rewrite Htr, <- !app_assoc; done).
      rewrite !count_events_app. unfold count_events at 2 4. simpl. lia.
    + rewrite (events_since_app _ (evs ++ [SleepEv 1]))
        by (simpl; rewrite Htr, <- !app_assoc; done).
      rewrite !count_events_app. unfold count_events at 2 4. simpl. lia.
Qed.

Lemma update_constructs (W : World) (addrs : list string) (s : State) :
  addrs <> [] ->
  exists evs : list event,
    trace (exec (update W addrs) s) = trace s ++ evs
    /\ count_events is_NewClient evs = 1.
Proof.
  intros Hne. unfold exec. rewrite update_spec.
  destruct addrs as [|a addrs]; [done|].
  destruct (elastic_NewClient W (trace s) (a :: addrs)) as [e|].
  { eexists [_]. split; done. }
  cbv zeta. rewrite putIndex_spec. simpl trace.
  set (c := mkClient _ _).
  destruct (IndexExists_Do W _ c "zero-requests") as [e|[|]].
  - eexists [_; _]. split; [simpl; by rewrite <- app_assoc|done].
  - eexists [_; _]. split; [simpl; by rewrite <- app_assoc|done].
  - cbv zeta. set (r := CreateIndex_Do W _ c "zero-requests" _).
    exists [NewClientEv (a :: addrs) None;
            IndexExistsEv c "zero-requests" (inr false);
            CreateIndexEv c "zero-requests"
              (index_body "request" request_mappings) r].
    split; [destruct r; simpl; by rewrite <- app_assoc|done].
Qed.

(** While [update] fails, every turn tries again and constructs a client. *)
Lemma watch_loop_retries (W : World) (hash : list Z) (addrs : list string) :
  (forall s, is_Some (eval (update W addrs) s)) ->
  addrs <> [] -> hash <> hashAddresses addrs ->
  forall (n : nat) (s : State),
    exists evs : list event,
      trace (exec (watch_loop W hash (replicate n addrs)) s) = trace s ++ evs
      /\ count_events is_NewClient evs = n.
Proof.
  intros Hfail Hne Hhash n. induction n as [|n IH]; intros s.
  { exists []. simpl. unfold_M. by rewrite app_nil_r. }
  destruct (update_constructs W addrs s Hne) as (evs1 & Htr1 & Hcount1).
  destruct (Hfail s) as [e He].
  unfold exec, eval in *. simpl. unfold_M.
  rewrite watch_iteration_changed by done.
  destruct (update W addrs s) as [err s1]. simpl in He, Htr1. subst err.
  set (s2 := record _ (record _ s1)).
  destruct (IH s2) as (evs & Htr & Hcount).
  exists (evs1 ++ [LogErrorEv e update_failed_msg; SleepEv 3] ++ evs).
  split.
  - rewrite Htr. simpl. rewrite Htr1. by rewrite <- !app_assoc.
  - rewrite !count_events_app, Hcount, Hcount1. done.
Qed.

(** C6, as the code has it. The watcher starts from the fingerprint of the
    empty address list. A turn whose address list has the fingerprint the
    watcher holds only sleeps; a turn whose list has another fingerprint
    calls [update] once, keeps the old fingerprint (logs, sleeps three
    seconds) when [update] returns an error, and takes the new one only when
    [update] returns none. So a turn constructs at most one client and
    issues at most one index creation; once the fingerprint of a list is
    held, any number of turns reading that list construct no client and
    create no index; and while [update] keeps failing for a non-empty list,
    [n] turns reading that list construct a client [n] times. *)
Theorem watcher_adopts_on_success_only (W : World) (hash : list Z)
    (addrs : list string) (s : State) :
  let newHash := hashAddresses addrs in
  (watcher_hash start = hashAddresses []
   /\ forall readings,
        watchSearch W readings = watch_loop W (hashAddresses []) readings)
  /\ (hash = newHash ->
      watch_iteration W hash addrs s = (hash, record (SleepEv 1) s))
  /\ (hash <> newHash ->
      watch_iteration W hash addrs s
      = match update W addrs s with
        | (Some e, s1) =>
            (hash,
             record (SleepEv 3) (record (LogErrorEv e update_failed_msg) s1))
        | (None, s1) => (newHash, record (SleepEv 1) s1)
        end)
  /\ (let evs :=
        events_since (trace s) (exec (watch_iteration W hash addrs) s) in
      count_events is_NewClient evs <= 1
      /\ count_events is_CreateIndex evs <= 1)
  /\ (forall n,
        watch_loop W newHash (replicate n addrs) s
        = (newHash, extend (replicate n (SleepEv 1)) s))
  /\ ((forall s0, is_Some (eval (update W addrs) s0)) ->
        addrs <> [] -> hash <> newHash ->
        forall n,
          count_events is_NewClient
            (events_since (trace s)
               (exec (watch_loop W hash (replicate n addrs)) s))
          = n).
Proof.
  intros newHash. split; [done|].
  split; [apply watch_iteration_same|].
  split; [apply watch_iteration_changed|].
  split; [apply watch_iteration_counts|].
  split; [intros n; apply watch_loop_same|].
  intros Hfail Hne Hhash n.
  destruct (watch_loop_retries W hash addrs Hfail Hne Hhash n s)
    as (evs & Htr & Hcount).
  by rewrite (events_since_app _ evs).
Qed.

Lemma watcher_adopts_on_success_only_witness :
  watch_iteration calm (hashAddresses ["backend-1"]) ["backend-1"] enabled_idle
  = (hashAddresses ["backend-1"], record (SleepEv 1) enabled_idle)
  /\ fst (watch_iteration create_down (hashAddresses []) ["backend-1"] initial)
     = hashAddresses []
  /\ count_events is_NewClient
       (events_since (trace initial)
          (exec (watch_loop create_down (hashAddresses [])
                   (replicate 3 ["backend-1"])) initial))
     = 3.
Proof.
  assert (Hne : hashAddresses [] <> hashAddresses ["backend-1"]).
  { vm_compute. discriminate. }
  split; [|split].
  - apply (proj1 (proj2 (watcher_adopts_on_success_only calm
                           (hashAddresses ["backend-1"]) ["backend-1"]
                           enabled_idle))).
    reflexivity.
  - rewrite (proj1 (proj2 (proj2 (watcher_adopts_on_success_only create_down
                                    (hashAddresses []) ["backend-1"] initial))))
      by exact Hne.
    reflexivity.
  - apply (proj2 (proj2 (proj2 (proj2 (proj2
             (watcher_adopts_on_success_only create_down (hashAddresses [])
                ["backend-1"] initial)))))).
    + intros s0. unfold eval. rewrite update_spec. simpl. eauto.
    + discriminate.
    + exact Hne.
Defined.

(** The last clause of C6 fails as worded: with an index that cannot be
    created, two turns reading the same list ["backend-1"] construct two
    clients and issue two index creations. *)
Lemma unchanged_list_is_reconfigured_again :
  ~ at_most_one_construction create_down ["backend-1"] 2.
Proof.
  unfold at_most_one_construction. intros [H _].
  vm_compute in H. lia.
Qed.

Example unchanged_list_two_attempts :
  let s := exec (watchSearch create_down (replicate 2 ["backend-1"])) initial in
  count_events is_NewClient (trace s) = 2
  /\ count_events is_CreateIndex (trace s) = 2
  /\ client s = None.
Proof. vm_compute. repeat split. Qed.

(** After a reconfiguration that succeeds, further turns with the same list
    do nothing but sleep. *)
Example unchanged_list_after_success :
  let s := exec (watchSearch calm (replicate 4 ["backend-1"])) initial in
  count_events is_NewClient (trace s) = 1
  /\ count_events is_CreateIndex (trace s) = 1
  /\ client s = Some backend_1.
Proof. vm_compute. repeat split. Qed.

(** * Further properties of the package *)

(** ** The steps of a run, case by case *)

(** A tick is idle, or delivers the batch after fewer than ten errors, or
    dead-letters it after ten. *)
Lemma worker_tick_cases (W : World) (s : State) :
  ((client s = None \/ buffer s = [])
   /\ exec (worker_tick W) s
      = mkState (client s) [] (failedBuffer s) (trace s ++ [SleepEv 2]))
  \/ (exists c errs,
        client s = Some c /\ buffer s <> [] /\ length errs < 10
        /\ exec (worker_tick W) s
           = mkState (Some c) [] (failedBuffer s)
               (trace s ++ SleepEv 2 :: failed_rounds c (buffer s) errs
                        ++ [BulkEv c (buffer s) None]))
  \/ (exists c errs e,
        client s = Some c /\ buffer s <> [] /\ length errs = 10
        /\ exec (worker_tick W) s
           = mkState (Some c) [] (failedBuffer s ++ buffer s)
               (trace s ++ SleepEv 2 :: failed_rounds c (buffer s) errs
                        ++ [LogErrorEv e bulk_failed_msg])).
Proof.
  destruct (client s) as [c|] eqn:Hc; [destruct (buffer s) as [|r b] eqn:Hb|].
  - left. split; [by right|]. rewrite worker_tick_idle by (by right).
    by rewrite Hc.
  - right. unfold exec. rewrite worker_tick_unfold.
    set (s1 := set_buffer [] (record (SleepEv 2) s)).
    destruct (deliver_present W (buffer s) c s1 Hc) as (errs & _ & Hcase);
      [by rewrite Hb|].
    rewrite <- Hb.
    destruct Hcase as [(Hlen & _ & ->)|(e & Hlen & _ & ->)]; simpl.
    + left. exists c, errs.
      split; [done|]. split; [by rewrite Hb|]. split; [done|].
      unfold extend. simpl. by rewrite Hc, <- !app_assoc.
    + right. exists c, errs, e.
      split; [done|]. split; [by rewrite Hb|]. split; [done|].
      by rewrite Hc, <- !app_assoc.
  - left. split; [by left|]. rewrite worker_tick_idle by (by left).
    by rewrite Hc.
Qed.

(** The five ways [update] can go. *)
Lemma update_cases (W : World) (addrs : list string) (s : State) :
  let c := mkClient (length (trace s)) addrs in
  let body := index_body "request" request_mappings in
  (addrs = [] /\ update W addrs s = (None, set_client None s))
  \/ (addrs <> []
      /\ ((exists e,
             update W addrs s
             = (Some (DatabaseError (Wrap e client_failed_msg)),
                mkState None (buffer s) (failedBuffer s)
                  (trace s ++ [NewClientEv addrs (Some e)])))
          \/ (exists e,
                update W addrs s
                = (Some (DatabaseError (Wrap e check_failed_msg)),
                   mkState None (buffer s) (failedBuffer s)
                     (trace s ++ [NewClientEv addrs None;
                                  IndexExistsEv c "zero-requests" (inl e)])))
          \/ update W addrs s
             = (None,
                mkState (Some c) (buffer s) (failedBuffer s)
                  (trace s ++ [NewClientEv addrs None;
                               IndexExistsEv c "zero-requests" (inr true)]))
          \/ (exists e,
                update W addrs s
                = (Some (DatabaseError (Wrap e create_failed_msg)),
                   mkState None (buffer s) (failedBuffer s)
                     (trace s ++ [NewClientEv addrs None;
                                  IndexExistsEv c "zero-requests" (inr false);
                                  CreateIndexEv c "zero-requests" body
                                    (Some e)])))
          \/ update W addrs s
             = (None,
                mkState (Some c) (buffer s) (failedBuffer s)
                  (trace s ++ [NewClientEv addrs None;
                               IndexExistsEv c "zero-requests" (inr false);
                               CreateIndexEv c "zero-requests" body None])))).
Proof.
  intros c body. rewrite update_spec.
  destruct addrs as [|a addrs]; [by left|]. right. split; [done|].
  destruct (elastic_NewClient W (trace s) (a :: addrs)) as [e|].
  { left. by exists e. }
  cbv zeta. rewrite putIndex_spec. simpl trace. fold c.
  destruct (IndexExists_Do W _ c "zero-requests") as [e|[|]].
  - right; left. exists e.
    unfold set_client, extend, record. simpl. by rewrite <- app_assoc.
  - right; right; left.
    unfold set_client, extend, record. simpl. by rewrite <- app_assoc.
  - cbv zeta. fold body.
    destruct (CreateIndex_Do W _ c "zero-requests" body) as [e|].
    + right; right; right; left. exists e.
      unfold set_client, extend, record. simpl. by rewrite <- app_assoc.
    + right; right; right; right.
      unfold set_client, extend, record. simpl. by rewrite <- app_assoc.
Qed.

Lemma watch_iteration_frame (W : World) (hash : list Z) (addrs : list string)
    (s : State) :
  buffer (exec (watch_iteration W hash addrs) s) = buffer s
  /\ failedBuffer (exec (watch_iteration W hash addrs) s) = failedBuffer s.
Proof.
  unfold exec. destruct (decide (hash = hashAddresses addrs)) as [Heq|Hne].
  - by rewrite watch_iteration_same.
  - rewrite watch_iteration_changed by done.
    destruct (update_cases W addrs s)
      as [[_ ->]|[_ [[e ->]|[[e ->]|[->|[[e ->]| ->]]]]]]; done.
Qed.

(** ** Who writes what *)

Lemma step_frame (W : World) (p : Process) (a : action) :
  failedBuffer (globals p) `prefix_of` failedBuffer (globals (step W p a))
  /\ (no_Watch a = true ->
      client (globals (step W p a)) = client (globals p)
      /\ watcher_hash (step W p a) = watcher_hash p)
  /\ (is_Watch a = true ->
      buffer (globals (step W p a)) = buffer (globals p)
      /\ failedBuffer (globals (step W p a)) = failedBuffer (globals p)).
Proof.
  destruct a as [index typ data| |addrs]; simpl.
  - assert (H : failedBuffer (exec (Index W index typ data) (globals p))
                = failedBuffer (globals p)
                /\ client (exec (Index W index typ data) (globals p))
                   = client (globals p)).
    { unfold exec. destruct (client (globals p)) as [c|] eqn:Hc.
      - by rewrite (Index_present W index typ data (globals p) c Hc).
      - by rewrite Index_absent. }
    destruct H as [-> ->]. done.
  - destruct (worker_tick_cases W (globals p))
      as [[_ ->]|[(c & errs & Hc & _ & _ & ->)|(c & errs & e & Hc & _ & _ & ->)]];
      simpl; rewrite ?Hc; split; try done.
    by apply prefix_app_r.
  - pose proof (watch_iteration_frame W (watcher_hash p) addrs (globals p))
      as [Hb Hf].
    unfold exec in Hb, Hf.
    destruct (watch_iteration W (watcher_hash p) addrs (globals p)) as [h s1].
    simpl in *. by rewrite Hb, Hf.
Qed.


(** X2. Only the watcher writes the client: calls of [Index] and ticks of
    the worker leave the client and the watcher's fingerprint as they are.
    And the watcher leaves both buffers as they are. *)
Theorem client_written_by_watcher_only (W : World) (schedule : list action)
    (p : Process) :
  (forallb no_Watch schedule = true ->
   client (globals (run W schedule p)) = client (globals p)
   /\ watcher_hash (run W schedule p) = watcher_hash p)
  /\ (forallb is_Watch schedule = true ->
      buffer (globals (run W schedule p)) = buffer (globals p)
      /\ failedBuffer (globals (run W schedule p)) = failedBuffer (globals p)).
Proof.
  revert p. induction schedule as [|a schedule IH]; intros p; [done|].
  change (run W (a :: schedule) p) with (run W schedule (step W p a)).
  destruct (step_frame W p a) as (_ & Hnw & Hw).
  destruct (IH (step W p a)) as [IH1 IH2]. simpl. split.
  - intros [Ha Hs]%andb_prop. destruct (Hnw Ha) as [<- <-]. by apply IH1.
  - intros [Ha Hs]%andb_prop. destruct (Hw Ha) as [<- <-]. by apply IH2.
Qed.

Lemma client_written_by_watcher_only_witness :
  client (globals (run bulk_down (five_enqueues ++ [Tick]) serving))
  = Some backend_1
  /\ buffer (globals (run create_down [Watch ["backend-2"]]
                        (mkProcess (hashAddresses ["backend-1"]) enabled_busy)))
     = [pending_request].
Proof.
  split.
  - apply (proj1 (client_written_by_watcher_only bulk_down
                    (five_enqueues ++ [Tick]) serving)).
    reflexivity.
  - apply (proj2 (client_written_by_watcher_only create_down
                    [Watch ["backend-2"]]
                    (mkProcess (hashAddresses ["backend-1"]) enabled_busy))).
    reflexivity.
Defined.

(** ** Nothing accepted is lost or doubled while the client is present *)

Lemma delivered_app (tr1 tr2 : list event) :
  delivered (tr1 ++ tr2) = delivered tr1 ++ delivered tr2.
Proof. unfold delivered. by rewrite omap_app, concat_app. Qed.

Lemma delivered_failed_rounds (c : Client) (reqs : list BulkIndexRequest.t)
    (errs : list error) :
  delivered (failed_rounds c reqs errs) = [].
Proof. induction errs as [|e errs IH]; [done|]. exact IH. Qed.

Lemma ids_issued_failed_rounds (c : Client) (reqs : list BulkIndexRequest.t)
    (errs : list error) (e : event) :
  is_NewObjectId e = false ->
  ids_issued (SleepEv 2 :: failed_rounds c reqs errs ++ [e]) = 0.
Proof.
  intros He. change (ids_issued (SleepEv 2 :: ?l)) with (ids_issued l).
  rewrite ids_issued_app. unfold ids_issued at 2. simpl. rewrite He. simpl.
  rewrite Nat.add_0_r. induction errs as [|e' errs IH]; [done|]. exact IH.
Qed.

Lemma run_conserves (W : World) (c : Client) (schedule : list action) :
  forall p : Process,
    forallb no_Watch schedule = true ->
    client (globals p) = Some c ->
    exists evs : list event,
      trace (globals (run W schedule p)) = trace (globals p) ++ evs
      /\ delivered evs ++ failedBuffer (globals (run W schedule p))
           ++ buffer (globals (run W schedule p))
         ≡ₚ failedBuffer (globals p) ++ buffer (globals p)
              ++ enqueued W (ids_issued (trace (globals p))) schedule.
Proof.
  induction schedule as [|a schedule IH]; intros p Hnw Hc.
  { exists []. simpl. by rewrite !app_nil_r. }
  simpl in Hnw. apply andb_prop in Hnw as [Ha Hnw].
  change (run W (a :: schedule) p) with (run W schedule (step W p a)).
  destruct (step_frame W p a) as (_ & Hframe & _).
  destruct (Hframe Ha) as [Hc' _].
  destruct (IH (step W p a) Hnw) as (evs & Htr & Hperm); [by rewrite Hc'|].
  rewrite Htr. clear IH Hframe Htr.
  destruct a as [index typ data| |addrs]; [| |done]; simpl in *.
  - unfold exec in *.
    rewrite (Index_present W index typ data (globals p) c Hc) in *.
    simpl in *. eexists (_ :: evs). split; [by rewrite <- app_assoc|].
    change (delivered (?e :: evs)) with (delivered evs).
    rewrite Hperm, ids_issued_app. simpl.
    by rewrite Nat.add_1_r, <- !app_assoc.
  - destruct (worker_tick_cases W (globals p))
      as [[Hidle Hrun]|[(c1 & errs & _ & _ & _ & Hrun)
                       |(c1 & errs & e & _ & _ & _ & Hrun)]];
      rewrite Hrun in *; simpl in *.
    + exists (SleepEv 2 :: evs). split; [by rewrite <- app_assoc|].
      change (delivered (SleepEv 2 :: evs)) with (delivered evs).
      rewrite Hperm, ids_issued_app. simpl. rewrite Nat.add_0_r.
      destruct Hidle as [Hnone|Hb]; [congruence|]. by rewrite Hb.
    + exists ((SleepEv 2 :: failed_rounds c1 (buffer (globals p)) errs
                 ++ [BulkEv c1 (buffer (globals p)) None]) ++ evs).
      split; [by rewrite <- !app_assoc|].
      rewrite delivered_app.
      change (delivered (SleepEv 2 :: ?l)) with (delivered l).
      rewrite delivered_app, delivered_failed_rounds. simpl.
      unfold delivered at 1. simpl. rewrite app_nil_r, <- app_assoc, Hperm.
      rewrite ids_issued_app, ids_issued_failed_rounds, Nat.add_0_r by done.
      rewrite !(assoc (++)).
      by rewrite (comm (++) (buffer _) (failedBuffer _)).
    + exists ((SleepEv 2 :: failed_rounds c1 (buffer (globals p)) errs
                 ++ [LogErrorEv e bulk_failed_msg]) ++ evs).
      split; [by rewrite <- !app_assoc|].
      rewrite delivered_app.
      change (delivered (SleepEv 2 :: ?l)) with (delivered l).
      rewrite delivered_app, delivered_failed_rounds. simpl.
      rewrite Hperm.
      rewrite ids_issued_app, ids_issued_failed_rounds, Nat.add_0_r by done.
      by rewrite <- !app_assoc.
Qed.

(** X3. While the client is present, whatever the backend answers, no
    accepted record is lost or doubled: after any sequence of [Index] calls
    and ticks, the records of the accepted bulk submissions, the dead-letter
    buffer and the ingest buffer together hold exactly the records that were
    in the two buffers at the start and those enqueued since, each as often
    as it was enqueued. *)
Theorem accepted_records_conserved (W : World) (schedule : list action)
    (p : Process) (c : Client) :
  forallb no_Watch schedule = true ->
  client (globals p) = Some c ->
  let p' := run W schedule p in
  delivered (events_since (trace (globals p)) (globals p'))
    ++ failedBuffer (globals p') ++ buffer (globals p')
  ≡ₚ failedBuffer (globals p) ++ buffer (globals p)
       ++ enqueued W (ids_issued (trace (globals p))) schedule.
Proof.
  intros Hnw Hc p'.
  destruct (run_conserves W c schedule p Hnw Hc) as (evs & Htr & Hperm).
  fold p' in Htr, Hperm. by rewrite (events_since_app _ evs).
Qed.

Lemma accepted_records_conserved_witness :
  delivered (events_since [SleepEv 1]
               (globals (run (flaky 10) [Tick; Enqueue "a" "b" JNull; Tick]
                           (mkProcess (hashAddresses ["backend-1"])
                              enabled_busy))))
    ++ failedBuffer (globals (run (flaky 10) [Tick; Enqueue "a" "b" JNull; Tick]
                                (mkProcess (hashAddresses ["backend-1"])
                                   enabled_busy)))
    ++ buffer (globals (run (flaky 10) [Tick; Enqueue "a" "b" JNull; Tick]
                          (mkProcess (hashAddresses ["backend-1"])
                             enabled_busy)))
  ≡ₚ [pending_request] ++ [pending_request]
       ++ [BulkIndexRequest.mk "a" "b" "0" JNull].
Proof.
  apply (accepted_records_conserved (flaky 10)
           [Tick; Enqueue "a" "b" JNull; Tick]
           (mkProcess (hashAddresses ["backend-1"]) enabled_busy) backend_1).
  - reflexivity.
  - reflexivity.
Defined.

(** ** Identifiers of the requests the process holds *)

(** A step either keeps a front part of the held requests, or adds one
    request with the next object id at their end. *)
Lemma step_held (W : World) (p : Process) (a : action) :
  let n := ids_issued (trace (globals p)) in
  let n' := ids_issued (trace (globals (step W p a))) in
  (held (step W p a) `prefix_of` held p /\ n <= n')
  \/ (exists r, held (step W p a) = held p ++ [r]
               /\ BulkIndexRequest.id r = bson_NewObjectId W n
               /\ n' = S n).
Proof.
  intros n n'. subst n n'. unfold held.
  destruct a as [index typ data| |addrs]; simpl.
  - unfold exec. destruct (client (globals p)) as [c|] eqn:Hc.
    + right. rewrite (Index_present W index typ data (globals p) c Hc). simpl.
      eexists. split; [by rewrite app_assoc|]. split; [done|].
      rewrite ids_issued_app. unfold ids_issued at 2. simpl. lia.
    + left. by rewrite Index_absent.
  - left.
    destruct (worker_tick_cases W (globals p))
      as [[_ ->]|[(c & errs & _ & _ & _ & ->)|(c & errs & e & _ & _ & _ & ->)]];
      simpl; rewrite ?app_nil_r, ids_issued_app.
    + split; [by apply prefix_app_r|lia].
    + split; [by apply prefix_app_r|lia].
    + split; [done|lia].
  - left.
    pose proof (watch_iteration_frame W (watcher_hash p) addrs (globals p))
      as [Hb Hf].
    destruct (watch_iteration_events W (watcher_hash p) addrs (globals p))
      as (evs & Htr & _).
    unfold exec in Hb, Hf, Htr.
    destruct (watch_iteration W (watcher_hash p) addrs (globals p)) as [h s1].
    simpl in *. rewrite Hb, Hf, Htr, ids_issued_app. split; [done|lia].
Qed.

Lemma run_ids_distinct (W : World) (schedule : list action) :
  Inj (=) (=) (bson_NewObjectId W) ->
  forall p : Process,
    NoDup (BulkIndexRequest.id <$> held p) ->
    (forall r, r ∈ held p ->
       exists k, k < ids_issued (trace (globals p))
                 /\ BulkIndexRequest.id r = bson_NewObjectId W k) ->
    NoDup (BulkIndexRequest.id <$> held (run W schedule p)).
Proof.
  intros Hinj. induction schedule as [|a schedule IH]; intros p Hnd Hknown;
    [done|].
  change (run W (a :: schedule) p) with (run W schedule (step W p a)).
  destruct (step_held W p a) as [[[rest Hpre] Hle]|(r & Hsnoc & Hid & Hn)];
    apply IH.
  - rewrite Hpre, fmap_app in Hnd. by apply NoDup_app in Hnd as [? _].
  - intros r Hr. destruct (Hknown r) as (k & Hk & Hrk).
    { rewrite Hpre. apply elem_of_app. by left. }
    exists k. split; [lia|done].
  - rewrite Hsnoc, fmap_app. apply NoDup_app. split; [done|].
    split; [|apply NoDup_singleton].
    intros i Hi ->%list_elem_of_singleton.
    apply list_elem_of_fmap in Hi as (r' & Hi & Hr').
    destruct (Hknown r' Hr') as (k & Hk & Hrk).
    rewrite Hid, Hrk in Hi. apply Hinj in Hi. lia.
  - intros r' Hr'. rewrite Hsnoc in Hr'. rewrite Hn.
    apply elem_of_app in Hr' as [Hr'|Hr'].
    + destruct (Hknown r' Hr') as (k & Hk & Hrk). exists k. split; [lia|done].
    + apply list_elem_of_singleton in Hr' as ->.
      eexists. split; [|exact Hid]. lia.
Qed.

(** X4. With an id generator that never repeats itself, no two requests
    held by the process (buffered or dead-lettered) carry the same id, at
    any point of any run from process start, whatever the backend answers
    and however the configuration changes. *)
Theorem held_requests_have_distinct_ids (W : World) (schedule : list action) :
  Inj (=) (=) (bson_NewObjectId W) ->
  NoDup (BulkIndexRequest.id <$> held (run W schedule start)).
Proof.
  intros Hinj. apply run_ids_distinct; [done|apply NoDup_nil_2|].
  by intros r ?%elem_of_nil.
Qed.

Lemma held_requests_have_distinct_ids_witness :
  NoDup (BulkIndexRequest.id
           <$> held (run bulk_down
                       (Watch ["backend-1"] :: five_enqueues
                          ++ [Tick; Enqueue "a" "b" JNull])
                       start)).
Proof.
  apply (held_requests_have_distinct_ids bulk_down). exact pretty_nat_inj.
Defined.

(** ** The client in use is a provisioned one *)

Lemma provisioned_in_app (tr evs : list event) (c : Client) :
  provisioned_in tr c -> provisioned_in (tr ++ evs) c.
Proof.
  intros [Hnew Hidx]. split; [by apply lookup_app_l_Some|].
  destruct Hidx as [H|[H1 H2]]; [left|right; split];
    by apply lookup_app_l_Some.
Qed.

Lemma bulk_ok_app (tr evs : list event) :
  bulk_ok tr ->
  (forall c reqs r, BulkEv c reqs r ∈ evs ->
     reqs <> [] /\ provisioned_in tr c) ->
  bulk_ok (tr ++ evs).
Proof.
  intros Htr Hevs c reqs r [H|H]%elem_of_app.
  - destruct (Htr c reqs r H). split; [done|]. by apply provisioned_in_app.
  - destruct (Hevs c reqs r H). split; [done|]. by apply provisioned_in_app.
Qed.

Lemma failed_rounds_elem (c : Client) (reqs : list BulkIndexRequest.t)
    (errs : list error) (e : event) :
  e ∈ failed_rounds c reqs errs ->
  (exists err, e = BulkEv c reqs (Some err)) \/ e = SleepEv 1.
Proof.
  induction errs as [|err errs IH]; simpl; [by intros ?%elem_of_nil|].
  intros He. apply elem_of_cons in He as [->|He]; [left; by exists err|].
  apply elem_of_cons in He as [->|He]; [by right|]. by apply IH.
Qed.

Lemma provisioned_found (tr : list event) (addrs : list string)
    (rest : list event) :
  let c := mkClient (length tr) addrs in
  provisioned_in
    (tr ++ NewClientEv addrs None
        :: IndexExistsEv c "zero-requests" (inr true) :: rest) c.
Proof.
  intros c. split; simpl.
  - apply list_lookup_middle. done.
  - left. rewrite lookup_app_r by lia.
    by replace (S (length tr) - length tr) with 1 by lia.
Qed.

Lemma provisioned_created (tr : list event) (addrs : list string)
    (rest : list event) :
  let c := mkClient (length tr) addrs in
  provisioned_in
    (tr ++ NewClientEv addrs None
        :: IndexExistsEv c "zero-requests" (inr false)
        :: CreateIndexEv c "zero-requests"
             (index_body "request" request_mappings) None :: rest) c.
Proof.
  intros c. split; simpl.
  - apply list_lookup_middle. done.
  - right. split.
    + rewrite lookup_app_r by lia.
      by replace (S (length tr) - length tr) with 1 by lia.
    + rewrite lookup_app_r by lia.
      by replace (S (S (length tr)) - length tr) with 2 by lia.
Qed.

Lemma step_client_ok (W : World) (p : Process) (a : action) :
  client_ok p -> bulk_ok (trace (globals p)) ->
  client_ok (step W p a) /\ bulk_ok (trace (globals (step W p a))).
Proof.
  intros Hcl Hbulk. destruct a as [index typ data| |addrs]; simpl.
  - unfold exec. destruct (client (globals p)) as [c|] eqn:Hc.
    + rewrite (Index_present W index typ data (globals p) c Hc). split.
      * intros c' [= <-]. destruct (Hcl c Hc) as (? & ? & ?).
        split; [done|]. split; [by apply provisioned_in_app|done].
      * simpl. apply bulk_ok_app; [done|].
        by intros c' reqs r ?%list_elem_of_singleton.
    + by rewrite Index_absent.
  - destruct (worker_tick_cases W (globals p))
      as [[_ ->]|[(c & errs & Hc & Hne & _ & ->)
                 |(c & errs & e & Hc & Hne & _ & ->)]]; simpl.
    + split.
      * intros c Hc. destruct (Hcl c Hc) as (? & ? & ?).
        split; [done|]. split; [by apply provisioned_in_app|done].
      * apply bulk_ok_app; [done|].
        by intros c' reqs r ?%list_elem_of_singleton.
    + destruct (Hcl c Hc) as (Hu & Hprov & Hh). split.
      * intros c' [= <-].
        split; [done|]. split; [by apply provisioned_in_app|done].
      * apply bulk_ok_app; [done|]. intros c' reqs r Hin.
        apply elem_of_cons in Hin as [?|Hin]; [done|].
        apply elem_of_app in Hin as [Hin|Hin].
        -- apply failed_rounds_elem in Hin as [[err [= -> -> _]]|?]; done.
        -- apply list_elem_of_singleton in Hin as [= -> -> _]. done.
    + destruct (Hcl c Hc) as (Hu & Hprov & Hh). split.
      * intros c' [= <-].
        split; [done|]. split; [by apply provisioned_in_app|done].
      * apply bulk_ok_app; [done|]. intros c' reqs r Hin.
        apply elem_of_cons in Hin as [?|Hin]; [done|].
        apply elem_of_app in Hin as [Hin|Hin].
        -- apply failed_rounds_elem in Hin as [[err [= -> -> _]]|?]; done.
        -- by apply list_elem_of_singleton in Hin.
  - destruct (decide (watcher_hash p = hashAddresses addrs)) as [Heq|Hne].
    + rewrite watch_iteration_same by done. split.
      * intros c Hc. destruct (Hcl c Hc) as (? & ? & ?).
        split; [done|]. split; [by apply provisioned_in_app|done].
      * apply bulk_ok_app; [done|].
        by intros c' reqs r ?%list_elem_of_singleton.
    + rewrite watch_iteration_changed by done.
      destruct (update_cases W addrs (globals p))
        as [[_ ->]|[Haddrs [[e ->]|[[e ->]|[->|[[e ->]| ->]]]]]]; simpl;
        (split;
         [try (by intros c' [=])
         |rewrite <- ?app_assoc; apply bulk_ok_app; [done|];
          intros c' reqs r Hin; simpl in Hin;
          repeat (apply elem_of_cons in Hin as [?|Hin]; [done|]);
          by apply elem_of_nil in Hin]).
      * intros c' [= <-]. split; [done|]. split; [|done].
        simpl. rewrite <- app_assoc. apply provisioned_found.
      * intros c' [= <-]. split; [done|]. split; [|done].
        simpl. rewrite <- app_assoc. apply provisioned_created.
Qed.

Lemma run_client_ok (W : World) (schedule : list action) (p : Process) :
  client_ok p -> bulk_ok (trace (globals p)) ->
  client_ok (run W schedule p) /\ bulk_ok (trace (globals (run W schedule p))).
Proof.
  revert p. induction schedule as [|a schedule IH]; intros p Hc Hb; [done|].
  change (run W (a :: schedule) p) with (run W schedule (step W p a)).
  destruct (step_client_ok W p a Hc Hb). by apply IH.
Qed.

Lemma start_client_ok : client_ok start /\ bulk_ok (trace (globals start)).
Proof. split; [by intros c [=]|by intros c reqs r ?%elem_of_nil]. Qed.

(** X5. At any point of any run from process start, a present client has a
    non-empty address list, was returned by a successful construction for
    exactly these addresses, had its index "zero-requests" found or created
    without error right after, and the watcher holds the fingerprint of
    these addresses. *)
Theorem present_client_is_provisioned (W : World) (schedule : list action)
    (c : Client) :
  client (globals (run W schedule start)) = Some c ->
  urls c <> []
  /\ provisioned_in (trace (globals (run W schedule start))) c
  /\ watcher_hash (run W schedule start) = hashAddresses (urls c).
Proof.
  intros Hc.
  destruct (run_client_ok W schedule start) as [H _];
    [apply start_client_ok..|]. by apply H.
Qed.

Lemma present_client_is_provisioned_witness :
  urls backend_1 <> []
  /\ provisioned_in
       (trace (globals (run calm (Watch ["backend-1"] :: five_enqueues) start)))
       backend_1
  /\ watcher_hash (run calm (Watch ["backend-1"] :: five_enqueues) start)
     = hashAddresses (urls backend_1).
Proof.
  apply (present_client_is_provisioned calm
           (Watch ["backend-1"] :: five_enqueues) backend_1).
  vm_compute. reflexivity.
Defined.

(** X6. In any run from process start, every bulk submission carries at
    least one request and goes to a client that was provisioned before:
    nothing is ever submitted through a client whose construction, index
    check or index creation failed. *)
Theorem bulk_goes_to_provisioned_client (W : World) (schedule : list action)
    (c : Client) (reqs : list BulkIndexRequest.t) (r : option error) :
  BulkEv c reqs r ∈ trace (globals (run W schedule start)) ->
  reqs <> [] /\ provisioned_in (trace (globals (run W schedule start))) c.
Proof.
  intros Hin.
  destruct (run_client_ok W schedule start) as [_ H];
    [apply start_client_ok..|]. by eapply H.
Qed.

Lemma bulk_goes_to_provisioned_client_witness :
  [pending_request] <> []
  /\ provisioned_in
       (trace (globals (run calm [Watch ["backend-1"];
                                  Enqueue "zero-requests" "request" user_a;
                                  Tick] start)))
       backend_1.
Proof.
  apply (bulk_goes_to_provisioned_client calm
           [Watch ["backend-1"]; Enqueue "zero-requests" "request" user_a; Tick]
           backend_1 [pending_request] None).
  vm_compute. apply list_elem_of_In. do 6 right. left. reflexivity.
Defined.

(** ** A failed change of the address list *)

(** X7. When the watcher holds the fingerprint of list [A] and a change to
    a list [B] with another fingerprint fails, the client is cleared while
    the fingerprint of [A] is kept. If the setting then goes back to [A],
    every later turn takes it as unchanged: the client stays absent and
    nothing is called, although [A] is configured. *)
Theorem failed_change_then_revert_stays_disabled (W : World)
    (A B : list string) (s : State) :
  hashAddresses B <> hashAddresses A ->
  is_Some (eval (update W B) s) ->
  let hash1 := eval (watch_iteration W (hashAddresses A) B) s in
  let s1 := exec (watch_iteration W (hashAddresses A) B) s in
  hash1 = hashAddresses A
  /\ client s1 = None
  /\ forall n,
       watch_loop W hash1 (replicate n A) s1
       = (hashAddresses A, extend (replicate n (SleepEv 1)) s1)
       /\ client (exec (watch_loop W hash1 (replicate n A)) s1) = None.
Proof.
  intros Hne [e He] hash1 s1. subst hash1 s1. unfold eval, exec in *.
  rewrite watch_iteration_changed by done.
  destruct (update_cases W B s)
    as [[_ Hu]|[_ [[e' Hu]|[[e' Hu]|[Hu|[[e' Hu]|Hu]]]]]];
    rewrite Hu in *; simpl in He; try done; simpl;
    (split; [done|]; split; [done|]; intros n;
     rewrite watch_loop_same; done).
Qed.

Lemma failed_change_then_revert_stays_disabled_witness :
  client (exec (watch_loop create_down
                  (eval (watch_iteration create_down
                           (hashAddresses ["backend-1"]) ["backend-2"])
                     enabled_idle)
                  (replicate 3 ["backend-1"]))
            (exec (watch_iteration create_down
                     (hashAddresses ["backend-1"]) ["backend-2"])
               enabled_idle))
  = None.
Proof.
  apply (failed_change_then_revert_stays_disabled create_down
           ["backend-1"] ["backend-2"] enabled_idle).
  - vm_compute. discriminate.
  - vm_compute. eauto.
Defined.

(** ** Time spent sleeping in a tick *)

Lemma seconds_slept_app (tr1 tr2 : list event) :
  seconds_slept (tr1 ++ tr2) = seconds_slept tr1 + seconds_slept tr2.
Proof.
  induction tr1 as [|e tr1 IH]; [done|]. simpl. rewrite IH.
  destruct e; lia.
Qed.

Lemma seconds_slept_failed_rounds (c : Client)
    (reqs : list BulkIndexRequest.t) (errs : list error) :
  seconds_slept (failed_rounds c reqs errs) = length errs
  /\ count_events is_failed_Bulk (failed_rounds c reqs errs) = length errs.
Proof.
  unfold count_events. induction errs as [|e errs [IH1 IH2]]; [done|].
  simpl. by rewrite IH1, IH2.
Qed.

(** X8. A tick sleeps two seconds plus one second per failed submission,
    and no submission fails more than ten times in a tick: between two and
    twelve seconds in all. *)
Theorem worker_tick_sleeps_at_most_twelve (W : World) (s : State) :
  let evs := events_since (trace s) (exec (worker_tick W) s) in
  seconds_slept evs = 2 + count_events is_failed_Bulk evs
  /\ count_events is_failed_Bulk evs <= 10
  /\ 2 <= seconds_slept evs <= 12.
Proof.
  assert (Hsum : forall c reqs errs e,
            is_failed_Bulk e = false -> seconds_slept [e] = 0 ->
            let evs := SleepEv 2 :: failed_rounds c reqs errs ++ [e] in
            seconds_slept evs = 2 + length errs
            /\ count_events is_failed_Bulk evs = length errs).
  { intros c reqs errs e He Hs evs. subst evs.
    destruct (seconds_slept_failed_rounds c reqs errs) as [H1 H2].
    change (SleepEv 2 :: ?l) with ([SleepEv 2] ++ l).
    rewrite !seconds_slept_app, !count_events_app, H1, H2, Hs.
    unfold count_events. simpl. rewrite He. simpl. lia. }
  intros evs. subst evs.
  destruct (worker_tick_cases W s)
    as [[_ ->]|[(c & errs & _ & _ & Hlen & ->)
               |(c & errs & e & _ & _ & Hlen & ->)]].
  - rewrite (events_since_app _ [SleepEv 2]) by done.
    unfold count_events. simpl. lia.
  - erewrite events_since_app by reflexivity.
    destruct (Hsum c (buffer s) errs (BulkEv c (buffer s) None)) as [-> ->];
      [done..|]. lia.
  - erewrite events_since_app by reflexivity.
    destruct (Hsum c (buffer s) errs (LogErrorEv e bulk_failed_msg))
      as [-> ->]; [done..|]. lia.
Qed.

(** ** Fields of the index-creation body *)

Lemma put_property_insert (properties : gmap string json) (m : mapping.t) :
  put_property properties m = <[mapping.Field m := field_json m]> properties.
Proof.
  unfold put_property, field_json.
  by destruct (decide (mapping.Type_ m = "object")).
Qed.

(** X9. For any catalog, the properties of the index-creation body are
    keyed by the field names that occur in it, one entry per name; when a
    name occurs more than once the last mapping with that name decides how
    the field is written. *)
Theorem index_properties_last_wins (mappings : list mapping.t) :
  dom (index_properties mappings)
  = list_to_set (mapping.Field <$> mappings)
  /\ forall field : string,
       index_properties mappings !! field
       = field_json
           <$> last (filter (fun m => mapping.Field m = field) mappings).
Proof.
  induction mappings as [|m mappings [IHdom IHlook]] using rev_ind.
  { unfold index_properties. simpl. split; [by rewrite dom_empty_L|].
    intros field. apply lookup_empty. }
  rewrite index_properties_snoc, put_property_insert. split.
  - rewrite dom_insert_L, IHdom, fmap_app, list_to_set_app_L. simpl.
    set_solver.
  - intros field. rewrite filter_app.
    destruct (decide (mapping.Field m = field)) as [<-|Hne].
    + rewrite lookup_insert_eq, filter_cons_True, filter_nil by done.
      by rewrite last_snoc.
    + rewrite lookup_insert_ne, filter_cons_False, filter_nil by done.
      by rewrite app_nil_r.
Qed.

(** ** Records buffered when the client is cleared *)

Lemma watch_iteration_no_bulk (W : World) (hash : list Z)
    (addrs : list string) (s : State) :
  exists evs : list event,
    trace (exec (watch_iteration W hash addrs) s) = trace s ++ evs
    /\ bulk_payloads evs = [].
Proof.
  unfold exec. destruct (decide (hash = hashAddresses addrs)) as [Heq|Hne].
  - rewrite watch_iteration_same by done. by exists [SleepEv 1].
  - rewrite watch_iteration_changed by done.
    destruct (update_cases W addrs s)
      as [[_ ->]|[_ [[e ->]|[[e ->]|[->|[[e ->]| ->]]]]]]; simpl;
      eexists; (split; [rewrite <- ?app_assoc; reflexivity|done]).
Qed.

(** X18. Whenever a turn of the watcher leaves the client absent (the
    address list was emptied, or the reconfiguration failed), the records
    that were buffered are lost at the next tick: they are not submitted,
    not dead-lettered and no longer buffered. *)
Theorem cleared_client_loses_buffer (W : World) (hash : list Z)
    (addrs : list string) (s : State) :
  client (exec (watch_iteration W hash addrs) s) = None ->
  let s1 := exec (watch_iteration W hash addrs) s in
  let s2 := exec (worker_tick W) s1 in
  buffer s1 = buffer s
  /\ buffer s2 = []
  /\ failedBuffer s2 = failedBuffer s
  /\ bulk_payloads (events_since (trace s) s2) = [].
Proof.
  intros Hc s1 s2. subst s2 s1.
  destruct (watch_iteration_frame W hash addrs s) as [Hb Hf].
  destruct (watch_iteration_no_bulk W hash addrs s) as (evs & Htr & Hevs).
  rewrite worker_tick_idle by (by left). simpl.
  split; [done|]. split; [done|]. split; [done|].
  rewrite (events_since_app _ (evs ++ [SleepEv 2]))
    by (simpl; by rewrite Htr, <- app_assoc).
  by rewrite bulk_payloads_app, Hevs.
Qed.

Lemma cleared_client_loses_buffer_witness :
  buffer (exec (worker_tick calm)
            (exec (watch_iteration calm (hashAddresses ["backend-1"]) [])
               enabled_busy))
  = [].
Proof.
  apply (cleared_client_loses_buffer calm (hashAddresses ["backend-1"]) []
           enabled_busy).
  vm_compute. reflexivity.
Defined.

(** * The endpoints pager *)

Module EndpointsPageFacts.

Import EndpointsPage.

Local Open Scope Z_scope.

Lemma push_links_seqZ (page : Z) (turns : nat) (i : Z) (acc : list link) :
  push_links page turns i acc
  = acc ++ ((fun k => mkLink k (k + 1) (bool_decide (page = k)) k)
              <$> seqZ i (Z.of_nat turns)).
Proof.
  revert i acc. induction turns as [|turns IH]; intros i acc.
  { simpl. by rewrite app_nil_r. }
  simpl push_links. rewrite IH, <- app_assoc. f_equal.
  rewrite (seqZ_cons i (Z.of_nat (S turns))) by lia.
  rewrite fmap_cons. f_equal. f_equal. f_equal; lia.
Qed.

Lemma render_links (page pages : Z) (v : pager) :
  render page pages = Some v ->
  1 < pages
  /\ links v
     = (fun k => mkLink k (k + 1) (bool_decide (page = k)) k)
         <$> seqZ (Z.max 0 (page - 7))
               (Z.min pages (Z.max 0 (page - 7) + 15) - Z.max 0 (page - 7)).
Proof.
  unfold render. destruct (decide (pages <= 1)) as [|Hp]; [done|].
  intros [= <-]. split; [lia|]. simpl. rewrite push_links_seqZ. simpl.
  set (start := Z.max 0 (page - 7)).
  set (n := Z.min pages (start + 15) - start).
  destruct (decide (0 <= n)) as [Hn|Hn].
  - by rewrite Z2Nat.id.
  - rewrite (seqZ_nil _ n) by lia.
    replace (Z.to_nat n) with 0%nat by lia. done.
Qed.

(** X10. When the pager is shown, it has at most fifteen page links, for
    consecutive pages in increasing order starting seven pages before the
    current one (or at the first page); each link is for an existing page,
    shows the page number counted from one and leads to its page. *)
Theorem pager_links_window (page pages : Z) (v : pager) :
  render page pages = Some v ->
  (length (links v) <= 15)%nat
  /\ key <$> links v
     = seqZ (Z.max 0 (page - 7))
         (Z.min 15 (pages - Z.max 0 (page - 7)))
  /\ Forall (fun l => 0 <= key l < pages /\ label l = key l + 1
                      /\ goes_to l = key l) (links v).
Proof.
  intros Hv. apply render_links in Hv as [Hp ->].
  set (start := Z.max 0 (page - 7)).
  replace (Z.min pages (start + 15) - start) with (Z.min 15 (pages - start))
    by lia.
  split; [|split].
  - rewrite length_fmap, length_seqZ. lia.
  - rewrite <- list_fmap_compose. simpl.
    rewrite <- (list_fmap_id (seqZ _ _)) at 2. by apply list_fmap_ext.
  - apply Forall_fmap, Forall_forall. intros k Hk. simpl.
    apply list_elem_of_lookup_1 in Hk as [i Hi].
    apply lookup_seqZ in Hi. lia.
Qed.

Lemma pager_links_window_witness :
  exists v, render 99 100 = Some v
            /\ key <$> links v = [92; 93; 94; 95; 96; 97; 98; 99].
Proof.
  eexists. split; [reflexivity|].
  apply (pager_links_window 99 100 _ eq_refl).
Defined.

(** X11. When the current page exists, it is among the page links,
    exactly once: it is the link at position [min page 7], styled as current,
    and no other link is. *)
Theorem pager_marks_current_page_once (page pages : Z) (v : pager) :
  0 <= page < pages ->
  render page pages = Some v ->
  let i := Z.to_nat (Z.min page 7) in
  links v !! i = Some (mkLink page (page + 1) true page)
  /\ forall (j : nat) (l : link),
       links v !! j = Some l -> current l = true -> j = i.
Proof.
  intros Hpage Hv i. apply render_links in Hv as [Hp ->].
  set (start := Z.max 0 (page - 7)).
  set (n := Z.min pages (start + 15) - start). split.
  - rewrite list_lookup_fmap, lookup_seqZ_lt by lia. simpl.
    replace (start + Z.of_nat i) with page by lia.
    by rewrite bool_decide_eq_true_2.
  - intros j l Hj Hcur. rewrite list_lookup_fmap in Hj.
    destruct (seqZ start n !! j) as [k|] eqn:Hk; [|done].
    injection Hj as <-. simpl in Hcur.
    apply bool_decide_eq_true in Hcur. apply lookup_seqZ in Hk. lia.
Qed.

Lemma pager_marks_current_page_once_witness :
  exists v, render 12 40 = Some v
            /\ links v !! 7%nat = Some (mkLink 12 13 true 12).
Proof.
  eexists. split; [reflexivity|].
  apply (pager_marks_current_page_once 12 40 _ ltac:(lia) eq_refl).
Defined.

(** X12. When the current page exists and the pager is shown, every arrow
    that is not disabled leads to an existing page: the first and last
    arrows to the first and last page, the previous and next arrows to the
    page just before and just after the current one. The previous and first
    arrows are disabled exactly on the first page, the next and last arrows
    exactly on the last. *)
Theorem pager_arrows_stay_in_range (page pages : Z) (v : pager) :
  0 <= page < pages ->
  render page pages = Some v ->
  (disabled (previous v) = false ->
   target (previous v) = page - 1 /\ 0 <= page - 1)
  /\ (disabled (next v) = false ->
      target (next v) = page + 1 /\ page + 1 < pages)
  /\ target (first v) = 0 /\ target (last v) = pages - 1
  /\ (disabled (first v) = true <-> page = 0)
  /\ (disabled (previous v) = true <-> page = 0)
  /\ (disabled (next v) = true <-> page = pages - 1)
  /\ (disabled (last v) = true <-> page = pages - 1).
Proof.
  intros Hpage. unfold render.
  destruct (decide (pages <= 1)) as [|Hp]; [done|]. intros [= <-]. simpl.
  rewrite !bool_decide_eq_false, !bool_decide_eq_true.
  repeat split; try lia; intros; lia.
Qed.

Lemma pager_arrows_stay_in_range_witness :
  exists v, render 0 3 = Some v /\ target (next v) = 1.
Proof.
  eexists. split; [reflexivity|].
  destruct (pager_arrows_stay_in_range 0 3 _ ltac:(lia) eq_refl)
    as (_ & H & _).
  apply H. reflexivity.
Defined.

End EndpointsPageFacts.

(** * The endpoint handlers *)

Module mhandlersFacts.

Import mhandlers.

Lemma strings_Index_colon_range (msg : string) :
  (strings_Index_colon msg = -1
   \/ 0 <= strings_Index_colon msg < Z.of_nat (String.length msg))%Z.
Proof.
  induction msg as [|ch msg IH]; [by left|]. simpl.
  destruct (decide (ch = ":"%char)); [right; lia|].
  destruct (decide (strings_Index_colon msg = -1)%Z); [by left|right; lia].
Qed.

Lemma substring_all (s : string) : String.substring 0 (String.length s) s = s.
Proof. induction s as [|ch s IH]; [done|]. simpl. by rewrite IH. Qed.

(** X13. A message is split at its first colon: when it has one, the
    document type is what precedes it and holds no colon, the document is
    everything after it, and the two joined by a colon give the message
    back; when it has none, it is not split. *)
Theorem split_message_at_first_colon (msg : string) :
  match split_message msg with
  | Some (docType, doc) =>
      msg = docType +:+ ":" +:+ doc
      /\ strings_Index_colon docType = (-1)%Z
      /\ strings_Index_colon msg = Z.of_nat (String.length docType)
  | None => strings_Index_colon msg = (-1)%Z
  end.
Proof.
  unfold split_message.
  destruct (decide (strings_Index_colon msg = -1)%Z) as [|Hne]; [done|].
  unfold slice_to, slice_from. induction msg as [|ch msg IH]; [done|].
  simpl in Hne |- *.
  destruct (decide (ch = ":"%char)) as [->|Hch].
  - simpl. rewrite Nat.sub_0_r, substring_all. done.
  - destruct (decide (strings_Index_colon msg = -1)%Z) as [|Hne']; [done|].
    destruct (strings_Index_colon_range msg) as [|Hr]; [done|].
    destruct (IH Hne') as (Hmsg & Hno & Hlen).
    replace (Z.to_nat (strings_Index_colon msg + 1))
      with (S (Z.to_nat (strings_Index_colon msg))) by lia.
    replace (Z.to_nat (strings_Index_colon msg + 1 + 1))
      with (S (Z.to_nat (strings_Index_colon msg + 1))) by lia.
    simpl. split; [|split].
    + exact (f_equal (String ch) Hmsg).
    + rewrite decide_False by done. by rewrite Hno.
    + rewrite Nat2Z.inj_succ, <- Hlen. lia.
Qed.



Ltac orderly_case :=
  unfold orderly; simpl;
  split; [done|]; split; [simpl; lia|];
  first
    [ left; eexists _, _; split; [reflexivity|done]
    | right; split; [done|]; split; [done|];
      let w := fresh "w" in
      let Hw := fresh "Hw" in
      intros w Hw;
      repeat (apply elem_of_cons in Hw as [->|Hw]; [done|]);
      by apply elem_of_nil in Hw ].

(** X15. [endpointPut] and [endpointPost] respond exactly once unless the
    demo mode blocked the request, change the database at most once, and
    publish "endpoint.change" exactly when that change succeeded, after it
    and before answering 200; any earlier failure answers 400 or 500 with
    nothing written and nothing published. When validation returns an
    error or error data, nothing is written. *)
Theorem put_and_post_are_orderly (blocked : bool) (parsed : option ObjectID)
    (bind : endpointData -> error + endpointData)
    (get : ObjectID -> error + Endpoint)
    (validate : Endpoint -> Endpoint * option ErrorData * option error)
    (commit : Endpoint -> gset string -> option error)
    (insert : Endpoint -> Endpoint * option error) :
  let put := endpointPut blocked parsed bind get validate commit in
  let post := endpointPost blocked bind validate insert in
  orderly blocked put /\ orderly blocked post
  /\ ((forall endpt, (validate endpt).1.2 <> None \/ (validate endpt).2 <> None) ->
      omap write_result put = [] /\ omap write_result post = []).
Proof.
  intros put post. subst put post. unfold endpointPut, endpointPost.
  split; [|split].
  - destruct blocked; [orderly_case|].
    destruct parsed as [endpointId|]; [|orderly_case].
    destruct (bind _) as [err|data]; [orderly_case|].
    destruct (get endpointId) as [err|endpt]; [orderly_case|].
    cbv zeta.
    destruct (validate _) as [[endpt' [errData|]] [err|]];
      try orderly_case.
    destruct (commit _ _) as [err|]; orderly_case.
  - destruct blocked; [orderly_case|].
    destruct (bind _) as [err|data]; [orderly_case|].
    cbv zeta.
    destruct (validate _) as [[endpt' [errData|]] [err|]];
      try orderly_case.
    destruct (insert _) as [inserted [err|]]; orderly_case.
  - intros Hval. split.
    + destruct blocked; [done|]. destruct parsed as [endpointId|]; [|done].
      destruct (bind _) as [err|data]; [done|].
      destruct (get endpointId) as [err|endpt]; [done|]. simpl.
      match goal with |- context [validate ?e] =>
        specialize (Hval e); destruct (validate e) as [[endpt' [d|]] [err|]]
      end; simpl in *; try done. by destruct Hval.
    + destruct blocked; [done|].
      destruct (bind _) as [err|data]; [done|]. simpl.
      match goal with |- context [validate ?e] =>
        specialize (Hval e); destruct (validate e) as [[endpt' [d|]] [err|]]
      end; simpl in *; try done. by destruct Hval.
Qed.

Lemma put_and_post_are_orderly_witness :
  omap write_result
    (endpointPut false (Some "5c0a") (fun d => inr d)
       (fun _ => inr (mkEndpoint "a" [] JNull))
       (fun e => (e, Some (mkErrorData "name_invalid" "Invalid name"), None))
       (fun _ _ => None))
  = [].
Proof.
  apply (proj2 (proj2 (put_and_post_are_orderly false (Some "5c0a")
                         (fun d => inr d)
                         (fun _ => inr (mkEndpoint "a" [] JNull))
                         (fun e => (e, Some (mkErrorData "name_invalid"
                                               "Invalid name"), None))
                         (fun _ _ => None) (fun e => (e, None))))).
  intros endpt. left. discriminate.
Defined.

(** X16. [endpointDelete] and [endpointsDelete] respond exactly once unless
    the demo mode blocked the request, remove at most once, and publish
    "endpoint.change" exactly when the removal succeeded, after it and
    before answering 200; an id that does not parse is answered 400 with
    nothing removed. *)
Theorem deletes_are_orderly (blocked : bool) (parsed : option ObjectID)
    (remove : ObjectID -> option error)
    (bind : list ObjectID -> error + list ObjectID)
    (removeMulti : list ObjectID -> option error) :
  orderly blocked (endpointDelete blocked parsed remove)
  /\ orderly blocked (endpointsDelete blocked bind removeMulti)
  /\ (blocked = false -> parsed = None ->
      endpointDelete blocked parsed remove = [AbortWithStatus 400]).
Proof.
  unfold endpointDelete, endpointsDelete. split; [|split].
  - destruct blocked; [orderly_case|].
    destruct parsed as [endpointId|]; [|orderly_case].
    destruct (remove endpointId) as [err|]; orderly_case.
  - destruct blocked; [orderly_case|].
    destruct (bind []) as [err|dta]; [orderly_case|].
    destruct (removeMulti dta) as [err|]; orderly_case.
  - by intros -> ->.
Qed.

Lemma deletes_are_orderly_witness :
  endpointDelete false None (fun _ => None) = [AbortWithStatus 400].
Proof.
  apply (proj2 (proj2 (deletes_are_orderly false None (fun _ => None)
                         (fun ids => inr ids) (fun _ => None))));
    reflexivity.
Defined.

End mhandlersFacts.

(** * The node heartbeat *)

Module nodeFacts.

Import node.

Section Keepalive.

Variable float64 : Type.
Variable zero : float64.
Variable Time : Type.

Lemma keepalive_turn_applied
    (apply : string -> SetDoc float64 Time -> error + Node float64 Time)
    (n : Node float64 Time) (rd : readings float64 Time) :
  omap (applied float64 Time) (keepalive_turn float64 zero Time apply n rd).2
  = [reported float64 zero Time rd].
Proof.
  unfold keepalive_turn, update, reported.
  destruct (memory_used _ _ rd) as [e1|mem], (load_average _ _ rd) as [e2|l];
    simpl; destruct (apply _ _) as [e3|n']; done.
Qed.

(** X17. The heartbeat sends exactly one update per turn, whatever failed
    before: the updates of a run carry, turn by turn, the time read in that
    turn, the memory measured in it or zero when the measurement failed, and
    the three load figures of its measurement or three zeros. No figure of
    an earlier turn and nothing the database returned is sent again. *)
Theorem keepalive_reports_each_turn
    (apply : string -> SetDoc float64 Time -> error + Node float64 Time)
    (n : Node float64 Time) (turns : list (readings float64 Time)) :
  omap (applied float64 Time) (keepalive float64 zero Time apply n turns).2
  = reported float64 zero Time <$> turns.
Proof.
  revert n. induction turns as [|rd turns IH]; intros n; [done|].
  simpl. pose proof (keepalive_turn_applied apply n rd) as H1.
  destruct (keepalive_turn float64 zero Time apply n rd) as [n1 evs1].
  specialize (IH n1).
  destruct (keepalive float64 zero Time apply n1 turns) as [n2 evs2].
  simpl in *. by rewrite omap_app, H1, IH.
Qed.

End Keepalive.

End nodeFacts.
